(** * Rate limiter: a shallow embedding of the decision engine and its
      HTTP handlers, with the properties of the specification.

    Source files embedded here:
    - [src/services/rateLimiter.ts]  ([checkRateLimit], the Lua script)
    - [src/services/redis.ts]        (the [RedisService] interface)
    - [src/services/config.ts]       ([rateLimitConfigData])
    - [src/models/user.ts]           (the [User] record)
    - [src/index.ts]                 (the three HTTP handlers)
    - [src/routes/statsRoutes.ts]    (what the endpoint of the override
                                      writer declares of a request)
    - [src/services/statsService.ts] ([getUserDataImpl])
    - [src/services/redis.ts], [src/services/supabase.ts]
                                     (the configuration read from the
                                      environment)

    Modelling conventions.
    - A JavaScript [number] is an integer of [Z]: the specification's data
      model has integer limits, windows, counters and millisecond clocks.
      [Math.floor (a / b)] on such values with [b > 0] is [Z.div].
    - A nullable field is an [option].  A field holds what it holds at
      run time, which a cast ([userData as User]) does not change: the
      expiry of a row is the text that the database returned.
    - A lookup [object[name]] finds the entries of the object and the
      members it inherits from [Object.prototype].
    - The services that the code receives through its context (Redis,
      Supabase, the tier configuration) are parameters of the functions,
      as they are parameters of the effects in the source.  An effect
      [Effect<A, E, R>] is a function from the state of its services to a
      result in [E + A] and a new state.
    - Logging ([Effect.logDebug] and friends) has no influence on any
      result and is left out; what a logging line evaluates on the way
      stays where it can throw.
    - A thrown exception makes the effect die: a defect, which is no
      failure of the error channel and which [Effect.catchTags] and
      [Effect.catchAll] do not catch. *)

From Stdlib Require Import ZArith List Lia Bool Ascii String QArith.QArith_base QArith.Qround.
From Stdlib Require Import Numbers.DecimalString Numbers.DecimalZ Numbers.DecimalPos.
From stdpp Require Import base strings gmap fin_maps.

Local Open Scope Z_scope.

(** ** Numbers rendered as text *)

(** [n.toString()] and the template literal [`${n}`] on an integer. *)
Definition toString (n : Z) : string := NilZero.string_of_int (Z.to_int n).

(** What Redis does with a decimal argument such as [ARGV[1]]. *)
Definition tonumber (s : string) : option Z :=
  option_map Z.of_int (NilZero.int_of_string s).

(** ** Data model *)

(** What a field of type [Date] holds at run time: a date with a time
    value in milliseconds since the epoch, the invalid date, whose
    [getTime()] is [NaN], or, in a row that was cast to [User] as the
    database returned it, the text of an instant, which is no date. *)
Inductive Date : Type :=
  | ValidDate (ms : Z)
  | InvalidDate
  | DateText (ms : Z).

(** [d.getTime()]: a number, [NaN], or the [TypeError] of calling what is
    no function (a text has no [getTime]). *)
Inductive TimeValue : Type :=
  | Time (ms : Z)
  | NaN
  | NotAFunction.

Definition getTime (d : Date) : TimeValue :=
  match d with
  | ValidDate ms => Time ms
  | InvalidDate => NaN
  | DateText _ => NotAFunction
  end.

(** The exceptions that the modelled code throws; each is a [TypeError]. *)
Inductive Defect : Type :=
  | getTime_is_not_a_function        (* [expiry.getTime()] where the expiry is a text *)
  | toString_of_undefined            (* [windowSeconds.toString()] on [undefined] *)
  | pipe_argument_is_not_a_function  (* [x.pipe(e)] where [e] is an effect *)
  | userId_of_undefined.             (* [query.userId] where [query] is [undefined] *)

(** [new Date(d)]: of a date, a date with the same time value; of the text
    of an instant, the date of that instant. *)
Definition new_Date (d : Date) : Date :=
  match d with
  | ValidDate ms => ValidDate ms
  | InvalidDate => InvalidDate
  | DateText ms => ValidDate ms
  end.

(** [User] of [src/models/user.ts], restricted to the fields the service
    reads ([FetchedUserData] of [src/index.ts]).  The tier is the string
    read from the database. *)
Record User : Type := {
  id : string;
  tier : string;
  override_limit_requests : option Z;
  override_limit_window_seconds : option Z;
  override_limit_expiry : option Date;
}.

(** [TierRateLimit] and [RateLimitConfig] of [src/models/config.ts]. *)
Record TierRateLimit : Type := {
  requests : Z;
  windowSeconds : Z;
}.

Abbreviation RateLimitConfig := (gmap string TierRateLimit).

(** [config[name]] on the registry: the plain object of
    [src/services/config.ts] has its own entries and, besides, the members
    that every plain object inherits from [Object.prototype]. *)
Definition Object_prototype : list string :=
  ["constructor"; "__defineGetter__"; "__defineSetter__"; "hasOwnProperty";
   "__lookupGetter__"; "__lookupSetter__"; "isPrototypeOf";
   "propertyIsEnumerable"; "toString"; "valueOf"; "__proto__";
   "toLocaleString"]%string.

Definition inherited (name : string) : bool :=
  bool_decide (name ∈ Object_prototype).

(** [rateLimitConfigData] of [src/services/config.ts]. *)
Definition rateLimitConfigData : RateLimitConfig :=
  <["free"%string := {| requests := 10; windowSeconds := 60 |}]>
  (<["premium"%string := {| requests := 100; windowSeconds := 60 |}]> ∅).

(** The tagged errors. [cause] is [unknown] in the source; the causes the
    code itself builds are strings. *)
Record RedisError : Type := { cause : string }.
Record RateLimitConfigError : Type := { reason : string }.

(** How a call ends without a decision: with one of the two tagged
    errors, or it dies of a thrown exception. *)
Inductive CheckError : Type :=
  | ERedis (e : RedisError)
  | EConfig (e : RateLimitConfigError)
  | EDie (defect : Defect).

(** [RateLimitStatus = Allowed | RateLimited]. *)
Inductive RateLimitStatus : Type :=
  | Allowed
  | RateLimited (retryAfterSeconds : Z).

(** A value of type [unknown], as [redis.eval] returns it. *)
Inductive Unknown : Type :=
  | UNumber (n : Z)
  | UString (s : string)
  | UNull.

Definition typeof (v : Unknown) : string :=
  match v with
  | UNumber _ => "number"
  | UString _ => "string"
  | UNull => "object"
  end.

(** ** The Redis service interface ([src/services/redis.ts])

    [S] is the state of the Redis server behind the client.  Only the
    operations that the modelled code calls are listed. *)
Record RedisService (S : Type) : Type := {
  r_ttl : string -> S -> (RedisError + Z) * S;
  r_eval : string -> list string -> list string -> S -> (RedisError + Unknown) * S;
  r_get : string -> S -> (RedisError + option string) * S;
}.
Arguments r_ttl {S} _ _ _.
Arguments r_eval {S} _ _ _ _ _.
Arguments r_get {S} _ _ _.

(** ** Effects

    [Effect S E A] is an effect that runs against a service state [S] and
    either fails with an [E] or succeeds with an [A]. *)
Definition Effect (S E A : Type) : Type := S -> (E + A) * S.

Definition succeed {S E A} (a : A) : Effect S E A := fun st => (inr a, st).

Definition failWith {S E A} (e : E) : Effect S E A := fun st => (inl e, st).

Definition bind {S E A B} (m : Effect S E A) (k : A -> Effect S E B) : Effect S E B :=
  fun st =>
    match m st with
    | (inl e, st') => (inl e, st')
    | (inr a, st') => k a st'
    end.

Definition mapError {S E E' A} (f : E -> E') (m : Effect S E A) : Effect S E' A :=
  fun st =>
    match m st with
    | (inl e, st') => (inl (f e), st')
    | (inr a, st') => (inr a, st')
    end.

Notation "'yield' x <- m ; k" := (bind m (fun x => k))
  (at level 10, x pattern, m at level 100, k at level 200).

(** ** The decision engine ([src/services/rateLimiter.ts]) *)

(** The text handed to [EVAL]. *)
Definition incrWithExpireScript : string :=
  "
  local current_count = redis.call('INCR', KEYS[1])
  if tonumber(current_count) == 1 then
    redis.call('EXPIRE', KEYS[1], ARGV[1])
  end
  return current_count
".

(** How lines 183-233 end when they do not end with a pair of numbers:
    with the error of a missing tier, with a thrown exception, or with the
    pair [(undefined, undefined)] that a member inherited from
    [Object.prototype] gives. *)
Inductive NoPair : Type :=
  | Missing (e : RateLimitConfigError)
  | Thrown (defect : Defect)
  | UndefinedPair.

(** How the call ends in each of the three cases.  With the pair
    [(undefined, undefined)] line 238 finds [undefined <= 0] false, and
    line 257 calls [windowSeconds.toString()] before any Redis command is
    sent. *)
Definition ofNoPair (e : NoPair) : CheckError :=
  match e with
  | Missing e => EConfig e
  | Thrown defect => EDie defect
  | UndefinedPair => EDie toString_of_undefined
  end.

(** Lines 219-227: the values of the user's tier. [config[user.tier]] is
    an entry of the registry, or an inherited member (which is truthy and
    has neither [requests] nor [windowSeconds]), or [undefined]. *)
Definition tierLimit (config : RateLimitConfig) (user : User)
  : NoPair + Z * Z :=
  match config !! tier user with
  | Some tierConfig => inr (requests tierConfig, windowSeconds tierConfig)
  | None =>
      if inherited (tier user) then inl UndefinedPair
      else inl (Missing {| reason := "Config missing for tier " +:+ tier user |})
  end.

(** Lines 202-232, the branch of the tier: line 204 calls [getTime()] on
    an expiry that is truthy, then lines 219-227 follow. *)
Definition tierBranch (config : RateLimitConfig) (user : User) : NoPair + Z * Z :=
  match override_limit_expiry user with
  | Some limit_expiry =>
      match getTime limit_expiry with
      | NotAFunction => inl (Thrown getTime_is_not_a_function)
      | _ => tierLimit config user
      end
  | None => tierLimit config user
  end.

(** Lines 183-233: [(effectiveLimit, effectiveWindowSeconds)]. *)
Definition effectiveLimit (config : RateLimitConfig) (user : User) (nowMillis : Z)
  : NoPair + Z * Z :=
  match override_limit_requests user,
        override_limit_window_seconds user,
        override_limit_expiry user with
  | Some limit_requests, Some limit_window_seconds, Some limit_expiry =>
      match getTime limit_expiry with
      | Time ms =>
          if nowMillis <? ms
          then inr (limit_requests, limit_window_seconds)
          else tierBranch config user
      | NaN => tierBranch config user
      | NotAFunction => inl (Thrown getTime_is_not_a_function)
      end
  | _, _, _ => tierBranch config user
  end.

(** Lines 248-250. *)
Definition windowStartSeconds (windowSeconds nowMillis : Z) : Z :=
  let nowSeconds := nowMillis / 1000 in
  nowSeconds / windowSeconds * windowSeconds.

Definition redisKey (user : User) (windowSeconds nowMillis : Z) : string :=
  "rate_limit:" +:+ id user +:+ ":" +:+ toString (windowStartSeconds windowSeconds nowMillis).

(** Lines 252-295: the conversation with Redis and the decision. *)
Definition decide_on_count {S} (redis : RedisService S)
    (limit windowSeconds : Z) (key : string)
  : Effect S CheckError RateLimitStatus :=
  yield evalResult <-
    mapError ERedis (r_eval redis incrWithExpireScript [key] [toString windowSeconds]);
  match evalResult with
  | UNumber currentCount =>
      if limit <? currentCount then
        yield ttl <- mapError ERedis (r_ttl redis key);
        let retryAfter := if 0 <=? ttl then ttl else windowSeconds in
        succeed (RateLimited retryAfter)
      else succeed Allowed
  | _ =>
      failWith (ERedis {| cause := "Unexpected non-number result type from Redis EVAL: "
                               +:+ typeof evalResult |})
  end.

(** [checkRateLimit]; [nowMillis] is the one reading of [Date.now()]. *)
Definition checkRateLimit {S} (config : RateLimitConfig) (redis : RedisService S)
    (nowMillis : Z) (user : User)
  : Effect S CheckError RateLimitStatus :=
  match effectiveLimit config user nowMillis with
  | inl e => failWith (ofNoPair e)
  | inr (limit, windowSeconds) =>
      if windowSeconds <=? 0 then
        failWith (EConfig {| reason := "Invalid windowSeconds: " +:+ toString windowSeconds |})
      else
        decide_on_count redis limit windowSeconds (redisKey user windowSeconds nowMillis)
  end.

(** ** An in-memory Redis

    The server state is a finite map from keys to integer values with the
    seconds they have left to live ([-1]: no expiry).  [INCR], [EXPIRE],
    [TTL] and [GET] are the Redis commands; [incrWithExpire] is what the
    server does on [incrWithExpireScript]: one atomic transition.  The
    store has no clock: [seconds_left] is the expiry as [EXPIRE] has set
    it, and the runs below are runs during which no key expires. *)
Module MemRedis.

Record Entry : Type := { value : Z; seconds_left : Z }.

Abbreviation Store := (gmap string Entry).

Definition INCR (key : string) (st : Store) : Z * Store :=
  match st !! key with
  | Some e => (value e + 1, <[key := {| value := value e + 1; seconds_left := seconds_left e |}]> st)
  | None => (1, <[key := {| value := 1; seconds_left := -1 |}]> st)
  end.

Definition EXPIRE (key : string) (seconds : Z) (st : Store) : Store :=
  match st !! key with
  | Some e =>
      if seconds <=? 0 then delete key st
      else <[key := {| value := value e; seconds_left := seconds |}]> st
  | None => st
  end.

Definition TTL (key : string) (st : Store) : Z :=
  match st !! key with
  | Some e => seconds_left e
  | None => -2
  end.

Definition GET (key : string) (st : Store) : option string :=
  match st !! key with
  | Some e => Some (toString (value e))
  | None => None
  end.

Definition incrWithExpire (KEYS ARGV : list string) (st : Store)
  : (RedisError + Unknown) * Store :=
  match KEYS, ARGV with
  | key :: _, arg :: _ =>
      let '(current_count, st1) := INCR key st in
      if current_count =? 1 then
        match tonumber arg with
        | Some seconds => (inr (UNumber current_count), EXPIRE key seconds st1)
        | None => (inl {| cause := "ERR value is not an integer or out of range" |}, st1)
        end
      else (inr (UNumber current_count), st1)
  | _, _ => (inl {| cause := "ERR wrong number of arguments" |}, st)
  end.

Definition service : RedisService Store := {|
  r_ttl := fun key st => (inr (TTL key st), st);
  r_eval := fun script keys args st =>
    if String.eqb script incrWithExpireScript
    then incrWithExpire keys args st
    else (inl {| cause := "ERR unknown script" |}, st);
  r_get := fun key st => (inr (GET key st), st);
|}.

(** The counter of a bucket: [0] while the key is absent. *)
Definition counter (key : string) (st : Store) : Z :=
  match st !! key with
  | Some e => value e
  | None => 0
  end.

End MemRedis.

(** A sequence of [checkRateLimit] calls of one user, one call per clock
    reading, each on the store the previous one left. *)
Fixpoint checkRateLimit_seq {S} (config : RateLimitConfig) (redis : RedisService S)
    (user : User) (clock : list Z) (st : S)
  : list (CheckError + RateLimitStatus) * S :=
  match clock with
  | [] => ([], st)
  | nowMillis :: later =>
      let '(r, st1) := checkRateLimit config redis nowMillis user st in
      let '(rs, st2) := checkRateLimit_seq config redis user later st1 in
      (r :: rs, st2)
  end.

Definition is_Allowed (r : CheckError + RateLimitStatus) : bool :=
  match r with
  | inr Allowed => true
  | _ => false
  end.

Definition count_Allowed (rs : list (CheckError + RateLimitStatus)) : Z :=
  Z.of_nat (length (List.filter is_Allowed rs)).


(** ** The HTTP handlers ([src/index.ts]) *)

(** The JSON values that the handlers put into response bodies: a string,
    or an object whose fields hold strings. *)
Inductive Json : Type :=
  | JString (s : string)
  | JObject (fields : list (string * string)).

(** A response built with [Http.response.*]. *)
Record ServerResponse : Type := {
  res_status : Z;
  res_headers : list (string * string);
  res_body : option Json;
}.

(** [Http.response.notFound({ body })] and
    [Http.response.internalServerError({ body })]; [None] when the call
    has no argument. *)
Definition notFound (body : option Json) : ServerResponse :=
  {| res_status := 404; res_headers := []; res_body := body |}.

Definition internalServerError (body : option Json) : ServerResponse :=
  {| res_status := 500; res_headers := []; res_body := body |}.

(** [CombinedHandlerError]. The payload of [SupabaseError] is [unknown] in
    the source; a string stands for it.  [TagRateLimitConfigErrorCause] is
    the [RateLimitConfigError] of line 93, which is built with a field
    [cause] and without the field [reason] of the class. *)
Inductive HandlerError : Type :=
  | TagSupabaseError (error : string)
  | TagNotFoundError (message : string)
  | TagRedisError (e : RedisError)
  | TagRateLimitConfigError (e : RateLimitConfigError)
  | TagRateLimitConfigErrorCause (text : string).

(** How an effect of a handler ends without a value: it fails with an error
    of its error channel, or it dies of a defect. *)
Inductive Cause (E : Type) : Type :=
  | Fail (e : E)
  | Die (defect : Defect).
Arguments Fail {E} _.
Arguments Die {E} _.

Definition die {S E A} (defect : Defect) : Effect S (Cause E) A :=
  failWith (Die defect).

(** The outcome of [checkRateLimit] as the handler that yields it sees
    it. *)
Definition ofCheckError (e : CheckError) : Cause HandlerError :=
  match e with
  | ERedis e => Fail (TagRedisError e)
  | EConfig e => Fail (TagRateLimitConfigError e)
  | EDie defect => Die defect
  end.

(** What a Supabase query resolves to: [{ data, error }]. *)
Record PostgrestResponse (A : Type) : Type := {
  data : option A;
  error : option string;
}.
Arguments data {A} _.
Arguments error {A} _.

(** The object [updateData] of [updateUserRateLimitHandler]: a field is
    there when the request body has it. *)
Record UpdateData : Type := {
  upd_override_limit_requests : option Z;
  upd_override_limit_window_seconds : option Z;
  upd_override_limit_expiry : option Date;
  upd_updated_at : Z;
}.

(** The three columns selected back after an update. *)
Record OverrideColumns : Type := {
  col_override_limit_requests : option Z;
  col_override_limit_window_seconds : option Z;
  col_override_limit_expiry : option Date;
}.

(** The Supabase client, reduced to the two queries of the handlers. [D]
    is the state of the database; [inl] is a rejected promise.  The row of
    a query has the type that the code gives it ([userData as User]); a
    database answers with the column [override_limit_expiry] as a text
    ([DateText]). *)
Record SupabaseClientService (D : Type) : Type := {
  (* from("users").select(...).eq("id", userId).maybeSingle() *)
  s_select : string -> D -> (string + PostgrestResponse User) * D;
  (* from('users').update(updateData).eq('id', userId).select(...).single() *)
  s_update : UpdateData -> string -> D -> (string + PostgrestResponse OverrideColumns) * D;
}.
Arguments s_select {D} _ _ _.
Arguments s_update {D} _ _ _ _.

(** An effect of one service, run where both services are there. *)
Definition onSupabase {D S E A} (m : Effect D E A) : Effect (D * S) E A :=
  fun st =>
    match m st.1 with
    | (r, d') => (r, (d', st.2))
    end.

Definition onRedis {D S E A} (m : Effect S E A) : Effect (D * S) E A :=
  fun st =>
    match m st.2 with
    | (r, s') => (r, (st.1, s'))
    end.

(** [Effect.catchTags(cases)]: a failure whose tag has an entry in [cases]
    goes to that entry, a failure of another tag stays a failure, and a
    defect stays a defect. *)
Definition catchTags {S E R A} (cases : E -> option (Effect S (Cause R) A))
    (m : Effect S (Cause E) A) : Effect S (Cause (E + R)) A :=
  fun st =>
    match m st with
    | (inl (Fail e), st') =>
        match cases e with
        | Some handler =>
            match handler st' with
            | (inl (Fail r), st'') => (inl (Fail (inr r)), st'')
            | (inl (Die defect), st'') => (inl (Die defect), st'')
            | (inr a, st'') => (inr a, st'')
            end
        | None => (inl (Fail (inl e)), st')
        end
    | (inl (Die defect), st') => (inl (Die defect), st')
    | (inr a, st') => (inr a, st')
    end.

(** [Effect.catchAll(f)]: every failure goes to [f]; a defect stays a
    defect. *)
Definition catchAll {S E R A} (f : E -> Effect S (Cause R) A)
    (m : Effect S (Cause E) A) : Effect S (Cause R) A :=
  fun st =>
    match m st with
    | (inl (Fail e), st') => f e st'
    | (inl (Die defect), st') => (inl (Die defect), st')
    | (inr a, st') => (inr a, st')
    end.

(** [log.pipe(Effect.fail(response))], the shape of every entry of the
    three [catchTags] tables and of the three [catchAll] functions:
    [x.pipe(f)] is [f(x)], and [Effect.fail(response)] is an effect and no
    function.  The response is built, the call throws, and the effect that
    runs the entry dies. *)
Definition pipe_Effect_fail {S R A} (response : R) : Effect S (Cause R) A :=
  die pipe_argument_is_not_a_function.

(** The user query that [checkRateLimitHandler] (lines 243-256) and
    [testCombinedLogicHandler] (lines 57-69) both make. The row has the
    type that the code gives it ([userData as User]). *)
Definition fetchUser {D S} (supabase : SupabaseClientService D) (userId : string)
  : Effect (D * S) HandlerError User :=
  yield result <- mapError TagSupabaseError (onSupabase (s_select supabase userId));
  match error result with
  | Some userError => failWith (TagSupabaseError userError)
  | None =>
      match data result with
      | None => failWith (TagNotFoundError ("User " +:+ userId +:+ " not found"))
      | Some userData => succeed userData
      end
  end.

(** *** [GET /api/check] *)

(** The object that [checkRateLimitHandler] returns. *)
Record CheckResponse : Type := {
  statusCode : Z;
  status : string;
  RetryAfter : option string;
}.

(** Lines 236-275.  The row goes to [checkRateLimit] as the query returned
    it (line 260). *)
Definition checkRateLimitHandler_body {D S}
    (supabase : SupabaseClientService D) (redis : RedisService S)
    (config : RateLimitConfig) (nowMillis : Z) (userId : string)
  : Effect (D * S) (Cause HandlerError) CheckResponse :=
  yield user <- mapError Fail (fetchUser supabase userId);
  yield st <- mapError ofCheckError (onRedis (checkRateLimit config redis nowMillis user));
  match st with
  | Allowed =>
      succeed {| statusCode := 200; status := "ALLOWED"; RetryAfter := None |}
  | RateLimited retryAfterSeconds =>
      succeed {| statusCode := 429; status := "NOT ALLOWED";
                 RetryAfter := Some (toString retryAfterSeconds) |}
  end.

(** Lines 276-293: the response that each entry of the table builds. *)
Definition checkRateLimitHandler_catchTags (e : HandlerError) : ServerResponse :=
  match e with
  | TagNotFoundError message =>
      notFound (Some (JObject [("error"%string, message)]))
  | TagSupabaseError _ =>
      internalServerError (Some (JObject [("error"%string, "Database error"%string)]))
  | TagRedisError _ =>
      internalServerError (Some (JObject [("error"%string, "Cache error"%string)]))
  | TagRateLimitConfigError _ | TagRateLimitConfigErrorCause _ =>
      internalServerError (Some (JObject [("error"%string, "Config error"%string)]))
  end.

(** Lines 296 and 226: the response that [catchAll] builds. *)
Definition unexpected_server_error : ServerResponse :=
  internalServerError
    (Some (JObject [("error"%string, "An unexpected server error occurred"%string)])).

Definition checkRateLimitHandler {D S}
    (supabase : SupabaseClientService D) (redis : RedisService S)
    (config : RateLimitConfig) (nowMillis : Z) (userId : string)
  : Effect (D * S) (Cause ServerResponse) CheckResponse :=
  catchAll (fun _ => pipe_Effect_fail unexpected_server_error)
    (catchTags (fun e => Some (pipe_Effect_fail (checkRateLimitHandler_catchTags e)))
       (checkRateLimitHandler_body supabase redis config nowMillis userId)).

(** *** [GET /rate-limit-stats] *)

(** [parseInt(str, 10)]: blanks, a sign, then the longest run of digits;
    [None] is [NaN]. *)
Definition digit_of (a : ascii) : option Z :=
  let n := Z.of_N (Ascii.N_of_ascii a) in
  if (48 <=? n) && (n <=? 57) then Some (n - 48) else None.

Fixpoint digits_prefix (s : string) (acc : option Z) : option Z :=
  match s with
  | String a rest =>
      match digit_of a with
      | Some d => digits_prefix rest (Some (10 * default 0 acc + d))
      | None => acc
      end
  | EmptyString => acc
  end.

Definition is_blank (a : ascii) : bool :=
  let n := Ascii.N_of_ascii a in
  (N.eqb n 32 || N.leb 9 n && N.leb n 13)%bool.

Fixpoint parseInt (s : string) : option Z :=
  match s with
  | String a rest =>
      if is_blank a then parseInt rest
      else if Ascii.eqb a "-" then option_map Z.opp (digits_prefix rest None)
      else if Ascii.eqb a "+" then digits_prefix rest None
      else digits_prefix s None
  | EmptyString => None
  end.

(** The object [statsResponse].  [limit] and [windowSeconds] hold what
    lines 83-91 have assigned, which is a number or [undefined] ([None]). *)
Record RateLimitStats : Type := {
  stats_userId : string;
  stats_tier : string;
  stats_limit : option Z;
  stats_windowSeconds : option Z;
  stats_currentCount : Z;
  stats_secondsUntilReset : Z;
  stats_overrideActive : bool;
}.

(** Lines 76-93: [(effectiveLimit, effectiveWindowSeconds, isOverrideActive)].
    Line 76 makes a date of the expiry of the row; [!isNaN(...)] excludes
    the invalid date.  [config[tier]] is an entry of the registry, an
    inherited member (truthy, without [requests] and [windowSeconds]) or
    [undefined]; [undefined <= 0] is false. *)
Definition statsLimit (config : RateLimitConfig) (userData : User) (nowMillis : Z)
  : HandlerError + option Z * option Z * bool :=
  let overrideExpiry := new_Date <$> override_limit_expiry userData in
  let fromTier :=
    match config !! tier userData with
    | Some tierConfig =>
        inr (Some (requests tierConfig), Some (windowSeconds tierConfig), false)
    | None =>
        if inherited (tier userData) then inr (None, None, false)
        else inl (TagRateLimitConfigError
                    {| reason := "Config missing for tier " +:+ tier userData |})
    end in
  let resolved :=
    match override_limit_requests userData,
          override_limit_window_seconds userData,
          overrideExpiry with
    | Some limit_requests, Some limit_window_seconds, Some expiry =>
        match getTime expiry with
        | Time ms =>
            if nowMillis <? ms
            then inr (Some limit_requests, Some limit_window_seconds, true)
            else fromTier
        | _ => fromTier
        end
    | _, _, _ => fromTier
    end in
  match resolved with
  | inl e => inl e
  | inr (effLimit, effWindowSeconds, isOverrideActive) =>
      match effWindowSeconds with
      | Some w =>
          if w <=? 0
          then inl (TagRateLimitConfigErrorCause ("Invalid windowSeconds: " +:+ toString w))
          else inr (effLimit, effWindowSeconds, isOverrideActive)
      | None => inr (effLimit, effWindowSeconds, isOverrideActive)
      end
  end.

(** Lines 97-99: the text of [windowStartSeconds] in the key; with an
    undefined window the number is [NaN]. *)
Definition windowStartText (effWindowSeconds : option Z) (nowMillis : Z) : string :=
  match effWindowSeconds with
  | Some w => toString (windowStartSeconds w nowMillis)
  | None => "NaN"
  end.

Definition testCombinedLogicHandler_body {D S}
    (supabase : SupabaseClientService D) (redis : RedisService S)
    (config : RateLimitConfig) (nowMillis : Z) (userId : string)
  : Effect (D * S) (Cause HandlerError) RateLimitStats :=
  yield userData <- mapError Fail (fetchUser supabase userId);
  match statsLimit config userData nowMillis with
  | inl e => failWith (Fail e)
  | inr (effLimit, effWindowSeconds, isOverrideActive) =>
      let key := "rate_limit:" +:+ userId +:+ ":"
                 +:+ windowStartText effWindowSeconds nowMillis in
      yield countOption <-
        mapError (fun e => Fail (TagRedisError e)) (onRedis (r_get redis key));
      yield ttl <-
        mapError (fun e => Fail (TagRedisError e)) (onRedis (r_ttl redis key));
      let currentCount :=
        match countOption with
        | None => 0
        | Some str => match parseInt str with None => 0 | Some n => n end
        end in
      succeed {| stats_userId := userId;
                 stats_tier := tier userData;
                 stats_limit := effLimit;
                 stats_windowSeconds := effWindowSeconds;
                 stats_currentCount := currentCount;
                 stats_secondsUntilReset := ttl;
                 stats_overrideActive := isOverrideActive |}
  end.

(** Lines 130-143: the response that each entry of the table builds. *)
Definition testCombinedLogicHandler_catchTags (e : HandlerError) : ServerResponse :=
  match e with
  | TagSupabaseError _ => internalServerError (Some (JString "DB Error"))
  | TagNotFoundError message => notFound (Some (JString message))
  | TagRedisError _ => internalServerError (Some (JString "Cache Error"))
  | TagRateLimitConfigError _ | TagRateLimitConfigErrorCause _ =>
      internalServerError (Some (JString "Config Error"))
  end.

Definition testCombinedLogicHandler {D S}
    (supabase : SupabaseClientService D) (redis : RedisService S)
    (config : RateLimitConfig) (nowMillis : Z) (userId : string)
  : Effect (D * S) (Cause ServerResponse) RateLimitStats :=
  catchAll (fun _ => pipe_Effect_fail (internalServerError None))
    (catchTags (fun e => Some (pipe_Effect_fail (testCombinedLogicHandler_catchTags e)))
       (testCombinedLogicHandler_body supabase redis config nowMillis userId)).

(** *** [PUT /users/:userId/rate-limits] *)









(** ** An in-memory user store

    The table [users] as a finite map from ids to rows.  The column
    [override_limit_expiry] holds an instant, in milliseconds. *)
Module MemSupabase.

Record Row : Type := {
  row_tier : string;
  row_override_limit_requests : option Z;
  row_override_limit_window_seconds : option Z;
  row_override_limit_expiry : option Z;
  row_updated_at : Z;
}.

Abbreviation Table := (gmap string Row).

(** The row as a query returns it: the instant of the expiry is a text. *)
Definition returned (userId : string) (r : Row) : User :=
  {| id := userId;
     tier := row_tier r;
     override_limit_requests := row_override_limit_requests r;
     override_limit_window_seconds := row_override_limit_window_seconds r;
     override_limit_expiry := DateText <$> row_override_limit_expiry r |}.

(** The instant that a date of [updateData] stores: the client sends
    [JSON.stringify(updateData)], in which the invalid date is [null]. *)
Definition stored (d : Date) : option Z :=
  match d with
  | ValidDate ms => Some ms
  | InvalidDate => None
  | DateText ms => Some ms
  end.

Definition patch (upd : UpdateData) (r : Row) : Row :=
  {| row_tier := row_tier r;
     row_override_limit_requests :=
       match upd_override_limit_requests upd with
       | Some v => Some v
       | None => row_override_limit_requests r
       end;
     row_override_limit_window_seconds :=
       match upd_override_limit_window_seconds upd with
       | Some v => Some v
       | None => row_override_limit_window_seconds r
       end;
     row_override_limit_expiry :=
       match upd_override_limit_expiry upd with
       | Some d => stored d
       | None => row_override_limit_expiry r
       end;
     row_updated_at := upd_updated_at upd |}.

Definition columns (r : Row) : OverrideColumns :=
  {| col_override_limit_requests := row_override_limit_requests r;
     col_override_limit_window_seconds := row_override_limit_window_seconds r;
     col_override_limit_expiry := DateText <$> row_override_limit_expiry r |}.

(** [maybeSingle()] resolves to the row or to no data; [single()] resolves
    to an error when no row matches. *)
Definition service : SupabaseClientService Table := {|
  s_select := fun userId tbl =>
    (inr {| data := returned userId <$> tbl !! userId; error := None |}, tbl);
  s_update := fun upd userId tbl =>
    match tbl !! userId with
    | Some r =>
        let r' := patch upd r in
        (inr {| data := Some (columns r'); error := None |}, <[userId := r']> tbl)
    | None =>
        (inr {| data := None;
                error := Some "PGRST116: JSON object requested, multiple (or no) rows returned"%string |},
         tbl)
    end;
|}.

End MemSupabase.

(** ** The specification's own wording, for comparison *)

(** 'An override is active iff all three override fields are non-null and
    overrideExpiry > now.' *)
Definition override_active_spec (user : User) (now : Z) : Prop :=
  override_limit_requests user <> None /\
  override_limit_window_seconds user <> None /\
  exists expiry, override_limit_expiry user = Some (ValidDate expiry) /\ expiry > now.

(** 'floor(now / 1000 / windowSeconds)', a division of rationals. *)
Definition bucket_spec (now windowSeconds : Z) : Z :=
  Qfloor (inject_Z now / inject_Z 1000 / inject_Z windowSeconds)%Q.

(** The user with the three override fields removed. *)
Definition without_override (user : User) : User :=
  {| id := id user; tier := tier user;
     override_limit_requests := None;
     override_limit_window_seconds := None;
     override_limit_expiry := None |}.

(** ** Concurrent callers

    A call is suspended at each of its two Redis commands, and between the
    two other calls may run. [Caller] is a call in flight: it has read the
    clock and is about to send the script ([Start]), or it is over the
    limit and about to read the TTL ([AwaitTtl]), or it has its outcome
    ([Done]). [caller_step] runs a call up to its next suspension point;
    two steps are [checkRateLimit] (lemma [caller_step_twice]). *)
Inductive Caller : Type :=
  | Start (nowMillis : Z)
  | AwaitTtl (key : string) (windowSeconds : Z)
  | Done (r : CheckError + RateLimitStatus).

Definition caller_step {S} (config : RateLimitConfig) (redis : RedisService S)
    (user : User) (c : Caller) (st : S) : Caller * S :=
  match c with
  | Start nowMillis =>
      match effectiveLimit config user nowMillis with
      | inl e => (Done (inl (ofNoPair e)), st)
      | inr (limit, windowSeconds) =>
          if windowSeconds <=? 0 then
            (Done (inl (EConfig {| reason := "Invalid windowSeconds: "
                                             +:+ toString windowSeconds |})), st)
          else
            let key := redisKey user windowSeconds nowMillis in
            match r_eval redis incrWithExpireScript [key] [toString windowSeconds] st with
            | (inl e, st1) => (Done (inl (ERedis e)), st1)
            | (inr (UNumber currentCount), st1) =>
                if limit <? currentCount
                then (AwaitTtl key windowSeconds, st1)
                else (Done (inr Allowed), st1)
            | (inr evalResult, st1) =>
                (Done (inl (ERedis {| cause :=
                   "Unexpected non-number result type from Redis EVAL: "
                   +:+ typeof evalResult |})), st1)
            end
      end
  | AwaitTtl key windowSeconds =>
      match r_ttl redis key st with
      | (inl e, st2) => (Done (inl (ERedis e)), st2)
      | (inr ttl, st2) =>
          (Done (inr (RateLimited (if 0 <=? ttl then ttl else windowSeconds))), st2)
      end
  | Done r => (Done r, st)
  end.

(** The calls in flight and the store they share; one step is a step of
    any one of the calls. *)
Inductive pool_step {S} (config : RateLimitConfig) (redis : RedisService S)
    (user : User) : list Caller * S -> list Caller * S -> Prop :=
  | pool_step_at (before after : list Caller) (c c' : Caller) (st st' : S) :
      caller_step config redis user c st = (c', st') ->
      pool_step config redis user (before ++ c :: after, st) (before ++ c' :: after, st').

Definition is_Done_Allowed (c : Caller) : bool :=
  match c with
  | Done (inr Allowed) => true
  | _ => false
  end.

Definition allowed_callers (pool : list Caller) : Z :=
  Z.of_nat (length (List.filter is_Done_Allowed pool)).

(** A caller of the bucket [key]: one that is about to start reads a clock
    that gives the pair [(limit, ws)] and the key [key]. *)
Definition of_bucket (config : RateLimitConfig) (user : User) (limit ws : Z)
    (key : string) (c : Caller) : Prop :=
  match c with
  | Start now => effectiveLimit config user now = inr (limit, ws) /\
                 redisKey user ws now = key
  | _ => True
  end.

(** What every interleaving preserves: the allowed calls are no more than
    the counter of the bucket and no more than the limit. *)
Definition bucket_inv (config : RateLimitConfig) (user : User) (limit ws : Z)
    (key : string) (x : list Caller * MemRedis.Store) : Prop :=
  Forall (of_bucket config user limit ws key) x.1 /\
  allowed_callers x.1 <= Z.min (MemRedis.counter key x.2) limit.

(** ** Sample data (the scenarios of the specification) *)

(** S1, S2: a user of the free tier without an override. *)
Definition u1 : User := {|
  id := "u1"; tier := "free";
  override_limit_requests := None;
  override_limit_window_seconds := None;
  override_limit_expiry := None |}.

(** S3: an override of 2 requests per 30 s that expires at 300 s. *)
Definition u2 : User := {|
  id := "u2"; tier := "free";
  override_limit_requests := Some 2;
  override_limit_window_seconds := Some 30;
  override_limit_expiry := Some (ValidDate 300000) |}.

(** A user of a tier that the registry does not know, with an override. *)
Definition u_gold : User := {|
  id := "u4"; tier := "gold";
  override_limit_requests := Some 2;
  override_limit_window_seconds := Some 30;
  override_limit_expiry := Some (ValidDate 300000) |}.

(** S4: an override of 1 request per 60 s that expires at 2 s. *)
Definition u3 : User := {|
  id := "u3"; tier := "free";
  override_limit_requests := Some 1;
  override_limit_window_seconds := Some 60;
  override_limit_expiry := Some (ValidDate 2000) |}.


(** The store after ten calls of [u1] at time 0. *)
Definition store_after_ten : MemRedis.Store :=
  (checkRateLimit_seq rateLimitConfigData MemRedis.service u1 (repeat 0 10) ∅).2.

(** A table [users] that holds [u1]. *)
Definition row_u1 : MemSupabase.Row := {|
  MemSupabase.row_tier := "free";
  MemSupabase.row_override_limit_requests := None;
  MemSupabase.row_override_limit_window_seconds := None;
  MemSupabase.row_override_limit_expiry := None;
  MemSupabase.row_updated_at := 0 |}.

Definition users_u1 : MemSupabase.Table := {[ "u1"%string := row_u1 ]}.


(** ** The user service ([src/services/statsService.ts]) *)

(** [getUserDataImpl]: the query of one user. Its errors are the tagged
    errors [SupabaseError] and [NotFoundError]. *)
Definition getUserDataImpl {D} (supabase : SupabaseClientService D) (userId : string)
  : Effect D HandlerError User :=
  yield result <- mapError TagSupabaseError (s_select supabase userId);
  match error result with
  | Some userError => failWith (TagSupabaseError userError)
  | None =>
      match data result with
      | None => failWith (TagNotFoundError ("User " +:+ userId +:+ " not found"))
      | Some userData => succeed userData
      end
  end.

(** ** Configuration from the environment

    [Config] of the effect library, as far as [src/services/redis.ts] and
    [src/services/supabase.ts] use it: a configuration reads variables of
    the environment, a finite map from names to texts. How the text of an
    integer variable is read is a parameter ([parseInteger]). *)
Module EnvConfig.

Inductive ConfigError : Type :=
  | MissingData (name : string)
  | InvalidData (message : string).

Definition Config (A : Type) : Type := gmap string string -> ConfigError + A.

(** [Config.string(name)] and [Config.secret(name)]. *)
Definition string_ (name : string) : Config string :=
  fun env =>
    match env !! name with
    | Some text => inr text
    | None => inl (MissingData name)
    end.

(** [Config.integer(name)]. *)
Definition integer (parseInteger : string -> option Z) (name : string) : Config Z :=
  fun env =>
    match env !! name with
    | Some text =>
        match parseInteger text with
        | Some n => inr n
        | None => inl (InvalidData ("Expected an integer value for " +:+ name))
        end
    | None => inl (MissingData name)
    end.

(** [Config.withDefault(def)]: the default stands in for missing data only. *)
Definition withDefault {A} (def : A) (c : Config A) : Config A :=
  fun env =>
    match c env with
    | inl (MissingData _) => inr def
    | r => r
    end.

(** [Config.validate({ message, validation })]. *)
Definition validate {A} (message : string) (validation : A -> bool) (c : Config A)
  : Config A :=
  fun env =>
    match c env with
    | inr a => if validation a then inr a else inl (InvalidData message)
    | inl e => inl e
    end.

(** [Config.option]. *)
Definition option_ {A} (c : Config A) : Config (option A) :=
  fun env =>
    match c env with
    | inr a => inr (Some a)
    | inl (MissingData _) => inr None
    | inl e => inl e
    end.

(** What [RedisConfigSchema] yields. *)
Record RedisConfig : Type := {
  host : string;
  port : Z;
  password : option string;
  db : option Z;
}.

(** [RedisConfigSchema] ([Config.all] of the four fields). *)
Definition RedisConfigSchema (parseInteger : string -> option Z) : Config RedisConfig :=
  fun env =>
    match withDefault "127.0.0.1"%string (string_ "REDIS_HOST") env,
          validate "port number out of range" (fun n => (0 <? n) && (n <? 65536))
            (withDefault 6379 (integer parseInteger "REDIS_PORT")) env,
          option_ (string_ "REDIS_PASSWORD") env,
          option_ (integer parseInteger "REDIS_DB") env with
    | inr h, inr p, inr pw, inr d =>
        inr {| host := h; port := p; password := pw; db := d |}
    | inl e, _, _, _ => inl e
    | _, inl e, _, _ => inl e
    | _, _, inl e, _ => inl e
    | _, _, _, inl e => inl e
    end.

(** What [SupabaseConfig] yields. *)
Record SupabaseSettings : Type := {
  url : string;
  serviceKey : string;
}.

(** [SupabaseConfig]. *)
Definition SupabaseConfig : Config SupabaseSettings :=
  fun env =>
    match string_ "SUPABASE_URL" env, string_ "SUPABASE_SERVICE_KEY" env with
    | inr u, inr k => inr {| url := u; serviceKey := k |}
    | inl e, _ => inl e
    | _, inl e => inl e
    end.

End EnvConfig.

(** ** Schedules

    A schedule names, step after step, the caller that runs next (a name
    that is no caller is skipped). *)
Fixpoint run_schedule {S} (config : RateLimitConfig) (redis : RedisService S)
    (user : User) (schedule : list nat) (pool : list Caller) (st : S)
  : list Caller * S :=
  match schedule with
  | [] => (pool, st)
  | i :: rest =>
      match pool !! i with
      | Some c =>
          let '(c', st') := caller_step config redis user c st in
          run_schedule config redis user rest (<[i := c']> pool) st'
      | None => run_schedule config redis user rest pool st
      end
  end.

(** ** Auxiliary notions of the properties *)

(** The text has no colon. *)
Fixpoint colon_free (s : string) : bool :=
  match s with
  | EmptyString => true
  | String a rest => negb (Ascii.eqb a ":") && colon_free rest
  end.

(** The boolean of 'the override is active' (lines 187-192 of
    [rateLimiter.ts], lines 78-82 of [index.ts]) for an expiry that is a
    date. *)
Definition overrideActive (user : User) (nowMillis : Z) : bool :=
  match override_limit_requests user,
        override_limit_window_seconds user,
        override_limit_expiry user with
  | Some _, Some _, Some (ValidDate ms) => nowMillis <? ms
  | _, _, _ => false
  end.

(** The expiry is what the type [User] says: a date or [null]. *)
Definition dated_expiry (user : User) : Prop :=
  forall ms, override_limit_expiry user <> Some (DateText ms).

(** The user with [new Date] applied to the expiry (line 76 of
    [index.ts]). *)
Definition with_new_Date (user : User) : User :=
  {| id := id user; tier := tier user;
     override_limit_requests := override_limit_requests user;
     override_limit_window_seconds := override_limit_window_seconds user;
     override_limit_expiry := new_Date <$> override_limit_expiry user |}.

(** Lines 235-295 of [rateLimiter.ts]: the call from the point where the
    limit and the window are known numbers. *)
Definition checkRateLimit_with {S} (redis : RedisService S) (nowMillis : Z)
    (user : User) (limit windowSeconds : Z) : Effect S CheckError RateLimitStatus :=
  if windowSeconds <=? 0 then
    failWith (EConfig {| reason := "Invalid windowSeconds: " +:+ toString windowSeconds |})
  else
    decide_on_count redis limit windowSeconds (redisKey user windowSeconds nowMillis).

(** More sample data. *)

(** A registry with one tier of 3 requests per 20 s. *)
Definition config_basic : RateLimitConfig :=
  {[ "basic"%string := {| requests := 3; windowSeconds := 20 |} ]}.

(** A user of the tier [basic] with an override of 1 request per 10 s that
    expires at 300 s. *)
Definition u_basic : User := {|
  id := "u5"; tier := "basic";
  override_limit_requests := Some 1;
  override_limit_window_seconds := Some 10;
  override_limit_expiry := Some (ValidDate 300000) |}.

(** A user whose tier is the name of a member of [Object.prototype]. *)
Definition u_constructor : User := {|
  id := "u6"; tier := "constructor";
  override_limit_requests := None;
  override_limit_window_seconds := None;
  override_limit_expiry := None |}.

(** A table [users] that holds [u1] and a row with the override of [u2]. *)
Definition row_u2 : MemSupabase.Row := {|
  MemSupabase.row_tier := "free";
  MemSupabase.row_override_limit_requests := Some 2;
  MemSupabase.row_override_limit_window_seconds := Some 30;
  MemSupabase.row_override_limit_expiry := Some 300000;
  MemSupabase.row_updated_at := 0 |}.

Definition users_u1_u2 : MemSupabase.Table :=
  <[ "u2"%string := row_u2 ]> users_u1.

(** A Redis whose every command fails. *)
Definition redis_down : RedisService unit := {|
  r_ttl := fun _ st => (inl {| cause := "ECONNREFUSED" |}, st);
  r_eval := fun _ _ _ st => (inl {| cause := "ECONNREFUSED" |}, st);
  r_get := fun _ st => (inl {| cause := "ECONNREFUSED" |}, st);
|}.

(** A Redis whose script answers with a text. *)
Definition redis_text : RedisService unit := {|
  r_ttl := fun _ st => (inr 7, st);
  r_eval := fun _ _ _ st => (inr (UString "OK"), st);
  r_get := fun _ st => (inr None, st);
|}.

(** A Redis that counts and whose key has lost its expiry. *)
Definition redis_no_expiry : RedisService unit := {|
  r_ttl := fun _ st => (inr (-1), st);
  r_eval := fun _ _ _ st => (inr (UNumber 11), st);
  r_get := fun _ st => (inr (Some "11"%string), st);
|}.

(** The in-memory Redis without the script: [EVAL] fails. *)
Definition redis_without_script : RedisService MemRedis.Store := {|
  r_ttl := r_ttl MemRedis.service;
  r_eval := fun _ _ _ st => (inl {| cause := "NOSCRIPT" |}, st);
  r_get := r_get MemRedis.service;
|}.

(** An environment that sets the Redis port only, and one that sets it
    out of range. *)
Definition env_port : gmap string string := {[ "REDIS_PORT"%string := "6380"%string ]}.
Definition env_bad_port : gmap string string := {[ "REDIS_PORT"%string := "70000"%string ]}.

(** * Properties *)

Lemma to_int_not_nil (n : Z) :
  Z.to_int n <> Decimal.Pos Decimal.Nil /\ Z.to_int n <> Decimal.Neg Decimal.Nil.
Proof.
  destruct n as [|p|p]; simpl; split; try discriminate;
    intros H; injection H as H; exact (DecimalPos.Unsigned.to_uint_nonnil p H).
Qed.

Lemma tonumber_toString (n : Z) : tonumber (toString n) = Some n.
Proof.
  unfold tonumber, toString.
  destruct (to_int_not_nil n) as [Hp Hn].
  rewrite NilZero.isi by assumption.
  simpl. now rewrite DecimalZ.of_to.
Qed.

Lemma toString_inj (a b : Z) : toString a = toString b -> a = b.
Proof.
  intros H. apply (f_equal tonumber) in H.
  rewrite !tonumber_toString in H. congruence.
Qed.

Example toString_60 : toString 60 = "60"%string.
Proof. reflexivity. Qed.

Example toString_neg : toString (-2) = "-2"%string.
Proof. reflexivity. Qed.

Example toString_0 : toString 0 = "0"%string.
Proof. reflexivity. Qed.


Example s1_first_three :
  (checkRateLimit_seq rateLimitConfigData MemRedis.service u1 [0; 0; 0] ∅).1
  = [inr Allowed; inr Allowed; inr Allowed].
Proof. vm_compute. reflexivity. Qed.

Example s1_counter :
  (checkRateLimit_seq rateLimitConfigData MemRedis.service u1 [0; 0; 0] ∅).2
    !! "rate_limit:u1:0"%string
  = Some {| MemRedis.value := 3; MemRedis.seconds_left := 60 |}.
Proof. vm_compute. reflexivity. Qed.

Example s2_next_bucket :
  (checkRateLimit rateLimitConfigData MemRedis.service 60000 u1 store_after_ten).1
  = inr Allowed /\
  redisKey u1 60 60000 = "rate_limit:u1:60"%string.
Proof. vm_compute. split; reflexivity. Qed.

Example s3_override_supersedes_tier :
  (checkRateLimit_seq rateLimitConfigData MemRedis.service u2 [0; 0; 0] ∅).1
  = [inr Allowed; inr Allowed; inr (RateLimited 30)].
Proof. vm_compute. reflexivity. Qed.

Example s4_override_expiry :
  (checkRateLimit_seq rateLimitConfigData MemRedis.service u3 [0; 500; 3000] ∅).1
  = [inr Allowed; inr (RateLimited 60); inr Allowed].
Proof. vm_compute. reflexivity. Qed.

Example s2_eleventh :
  last (checkRateLimit_seq rateLimitConfigData MemRedis.service u1
          (repeat 59999 11) ∅).1
  = Some (inr (RateLimited 60)).
Proof. vm_compute. reflexivity. Qed.

(** ** The engine, step by step *)

Section Engine.

Context {S : Type}.
Variable config : RateLimitConfig.
Variable redis : RedisService S.

(** Past the resolution of the limit, the call is the conversation with
    Redis on the derived key. *)
Lemma checkRateLimit_proceeds now user limit ws :
  effectiveLimit config user now = inr (limit, ws) ->
  0 < ws ->
  checkRateLimit config redis now user
  = decide_on_count redis limit ws (redisKey user ws now).
Proof.
  intros Heff Hws. unfold checkRateLimit. rewrite Heff.
  destruct (Z.leb_spec ws 0); [lia | reflexivity].
Qed.

Lemma decide_on_count_number limit ws key st count st1 :
  r_eval redis incrWithExpireScript [key] [toString ws] st = (inr (UNumber count), st1) ->
  decide_on_count redis limit ws key st
  = if limit <? count then
      match r_ttl redis key st1 with
      | (inl e, st2) => (inl (ERedis e), st2)
      | (inr ttl, st2) => (inr (RateLimited (if 0 <=? ttl then ttl else ws)), st2)
      end
    else (inr Allowed, st1).
Proof.
  intros Heval. unfold decide_on_count, bind, mapError. rewrite Heval.
  destruct (limit <? count); [|reflexivity].
  destruct (r_ttl redis key st1) as [[e|ttl] st2]; reflexivity.
Qed.

End Engine.

(** ** C2 and C4: the comparison and the retry delay *)

(** C2. The comparison with the limit is strict on the value that the
    increment returns: with [count <= limit] (so with [count = limit]) the
    call returns [Allowed]; with [count > limit] (so with
    [count = limit + 1]) it never returns [Allowed], and it returns
    [RateLimited] with whatever the TTL read that follows yields. *)
Theorem checkRateLimit_strict_comparison {S} (config : RateLimitConfig)
    (redis : RedisService S) (now : Z) (user : User) (st st1 : S)
    (limit ws count : Z) :
  effectiveLimit config user now = inr (limit, ws) ->
  0 < ws ->
  r_eval redis incrWithExpireScript [redisKey user ws now] [toString ws] st
    = (inr (UNumber count), st1) ->
  (count <= limit -> checkRateLimit config redis now user st = (inr Allowed, st1)) /\
  (count > limit ->
     (checkRateLimit config redis now user st).1 <> inr Allowed /\
     forall ttl st2,
       r_ttl redis (redisKey user ws now) st1 = (inr ttl, st2) ->
       exists retryAfterSeconds,
         checkRateLimit config redis now user st
         = (inr (RateLimited retryAfterSeconds), st2)).
Proof.
  intros Heff Hws Heval.
  rewrite (checkRateLimit_proceeds config redis now user limit ws Heff Hws).
  rewrite (decide_on_count_number redis limit ws _ st count st1 Heval).
  split; intros Hc.
  - destruct (Z.ltb_spec limit count); [lia | reflexivity].
  - destruct (Z.ltb_spec limit count); [|lia]. split.
    + destruct (r_ttl redis (redisKey user ws now) st1) as [[e|ttl] st2];
        simpl; discriminate.
    + intros ttl st2 Httl. rewrite Httl. eauto.
Qed.

(** C4. On the over-limit path the call reads the TTL of the key and
    returns [RateLimited] with that TTL when it is [>= 0], and with
    [windowSeconds] when it is negative ([-2] and [-1] alike). *)
Theorem checkRateLimit_retryAfter {S} (config : RateLimitConfig)
    (redis : RedisService S) (now : Z) (user : User) (st st1 st2 : S)
    (limit ws count ttl : Z) :
  effectiveLimit config user now = inr (limit, ws) ->
  0 < ws ->
  r_eval redis incrWithExpireScript [redisKey user ws now] [toString ws] st
    = (inr (UNumber count), st1) ->
  count > limit ->
  r_ttl redis (redisKey user ws now) st1 = (inr ttl, st2) ->
  (0 <= ttl -> checkRateLimit config redis now user st = (inr (RateLimited ttl), st2)) /\
  (ttl < 0 -> checkRateLimit config redis now user st = (inr (RateLimited ws), st2)).
Proof.
  intros Heff Hws Heval Hc Httl.
  rewrite (checkRateLimit_proceeds config redis now user limit ws Heff Hws).
  rewrite (decide_on_count_number redis limit ws _ st count st1 Heval).
  destruct (Z.ltb_spec limit count); [|lia]. rewrite Httl.
  split; intros Hsign; destruct (Z.leb_spec 0 ttl); try lia; reflexivity.
Qed.

Lemma checkRateLimit_strict_comparison_witness :
  effectiveLimit rateLimitConfigData u1 0 = inr (10, 60) /\
  0 < 60 /\
  (11 > 10 ->
   (checkRateLimit rateLimitConfigData MemRedis.service 0 u1 store_after_ten).1
     <> inr Allowed) /\
  (1 <= 10 ->
   (checkRateLimit rateLimitConfigData MemRedis.service 0 u1 ∅).1 = inr Allowed).
Proof.
  split; [reflexivity|]. split; [lia|]. split.
  - intros H.
    apply (checkRateLimit_strict_comparison rateLimitConfigData MemRedis.service
             0 u1 store_after_ten
             (MemRedis.incrWithExpire [redisKey u1 60 0] [toString 60] store_after_ten).2
             10 60 11);
      [reflexivity | lia | vm_compute; reflexivity | lia].
  - intros H.
    pose proof (checkRateLimit_strict_comparison rateLimitConfigData MemRedis.service
                  0 u1 ∅
                  (MemRedis.incrWithExpire [redisKey u1 60 0] [toString 60] ∅).2
                  10 60 1) as [Hle _];
      [reflexivity | lia | vm_compute; reflexivity |].
    rewrite Hle by lia. reflexivity.
Defined.

Lemma checkRateLimit_retryAfter_witness :
  effectiveLimit rateLimitConfigData u1 0 = inr (10, 60) /\
  11 > 10 /\
  MemRedis.TTL (redisKey u1 60 0) store_after_ten = 60 /\
  (checkRateLimit rateLimitConfigData MemRedis.service 0 u1 store_after_ten).1
  = inr (RateLimited 60).
Proof.
  split; [reflexivity|]. split; [lia|]. split; [vm_compute; reflexivity|].
  pose proof (checkRateLimit_retryAfter rateLimitConfigData MemRedis.service
                0 u1 store_after_ten
                (MemRedis.incrWithExpire [redisKey u1 60 0] [toString 60] store_after_ten).2
                (MemRedis.incrWithExpire [redisKey u1 60 0] [toString 60] store_after_ten).2
                10 60 11 60) as H.
  destruct H as [H _];
    [reflexivity | lia | vm_compute; reflexivity | lia | vm_compute; reflexivity |].
  rewrite H by lia. reflexivity.
Defined.

(** ** The in-memory Redis under the engine *)

Lemma MemRedis_incrWithExpire (key : string) (ws : Z) (st : MemRedis.Store) :
  0 < ws ->
  exists st1,
    MemRedis.incrWithExpire [key] [toString ws] st
      = (inr (UNumber (MemRedis.counter key st + 1)), st1) /\
    MemRedis.counter key st1 = MemRedis.counter key st + 1.
Proof.
  intros Hws. unfold MemRedis.incrWithExpire, MemRedis.INCR, MemRedis.counter.
  rewrite tonumber_toString.
  destruct (st !! key) as [e|] eqn:E; simpl.
  - destruct (MemRedis.value e + 1 =? 1) eqn:E1.
    + eexists. split; [reflexivity|].
      unfold MemRedis.EXPIRE. rewrite lookup_insert_eq.
      destruct (Z.leb_spec ws 0); [lia|].
      rewrite lookup_insert_eq. reflexivity.
    + eexists. split; [reflexivity|]. rewrite lookup_insert_eq. reflexivity.
  - eexists. split; [reflexivity|].
    unfold MemRedis.EXPIRE. rewrite lookup_insert_eq.
    destruct (Z.leb_spec ws 0); [lia|].
    rewrite lookup_insert_eq. reflexivity.
Qed.

Lemma MemRedis_eval (key : string) (ws : Z) (st : MemRedis.Store) :
  r_eval MemRedis.service incrWithExpireScript [key] [toString ws] st
  = MemRedis.incrWithExpire [key] [toString ws] st.
Proof.
  unfold MemRedis.service, r_eval. now rewrite String.eqb_refl.
Qed.

(** One call on the in-memory Redis: the decision is taken on the counter
    plus one, and the counter has grown by one. *)
Lemma MemRedis_decide_on_count (limit ws : Z) (key : string) (st : MemRedis.Store) :
  0 < ws ->
  exists st1,
    decide_on_count MemRedis.service limit ws key st
      = (inr (if limit <? MemRedis.counter key st + 1
              then RateLimited (if 0 <=? MemRedis.TTL key st1
                                then MemRedis.TTL key st1 else ws)
              else Allowed), st1) /\
    MemRedis.counter key st1 = MemRedis.counter key st + 1.
Proof.
  intros Hws.
  destruct (MemRedis_incrWithExpire key ws st Hws) as (st1 & Hrun & Hcnt).
  exists st1. split; [|exact Hcnt].
  rewrite (decide_on_count_number MemRedis.service limit ws key st
             (MemRedis.counter key st + 1) st1)
    by (rewrite MemRedis_eval; exact Hrun).
  destruct (limit <? MemRedis.counter key st + 1); reflexivity.
Qed.

(** ** C3 and C10: when the override is used *)

Lemma effectiveLimit_active (config : RateLimitConfig) (user : User) (now : Z) :
  override_active_spec user now ->
  exists limit ws,
    override_limit_requests user = Some limit /\
    override_limit_window_seconds user = Some ws /\
    effectiveLimit config user now = inr (limit, ws).
Proof.
  intros (Hl & Hw & expiry & He & Hgt). unfold effectiveLimit.
  destruct (override_limit_requests user) as [l|]; [|congruence].
  destruct (override_limit_window_seconds user) as [w|]; [|congruence].
  rewrite He. cbn [getTime].
  destruct (Z.ltb_spec now expiry); [|lia]. eauto.
Qed.

Lemma tierBranch_dated (config : RateLimitConfig) (user : User) :
  dated_expiry user -> tierBranch config user = tierLimit config user.
Proof.
  intros Hdated. unfold tierBranch.
  destruct (override_limit_expiry user) as [[ms| |ms]|] eqn:Ee; try reflexivity.
  now destruct (Hdated ms).
Qed.

Lemma effectiveLimit_inactive (config : RateLimitConfig) (user : User) (now : Z) :
  ~ override_active_spec user now -> dated_expiry user ->
  effectiveLimit config user now = tierLimit config user.
Proof.
  intros Hna Hdated. unfold effectiveLimit.
  rewrite (tierBranch_dated config user Hdated).
  destruct (override_limit_requests user) as [l|] eqn:El; [|reflexivity].
  destruct (override_limit_window_seconds user) as [w|] eqn:Ew; [|reflexivity].
  destruct (override_limit_expiry user) as [[ms| |ms]|] eqn:Ee; try reflexivity.
  - cbn [getTime]. destruct (Z.ltb_spec now ms); [|reflexivity].
    exfalso. apply Hna. unfold override_active_spec.
    rewrite El, Ew, Ee. repeat split; try discriminate.
    exists ms. split; [reflexivity | lia].
  - now destruct (Hdated ms).
Qed.

Lemma effectiveLimit_without_override (config : RateLimitConfig) (user : User) (now : Z) :
  effectiveLimit config (without_override user) now = tierLimit config user.
Proof. reflexivity. Qed.

(** A row whose expiry is a text makes the resolution throw, whatever the
    other fields and the clock are. *)
Lemma effectiveLimit_DateText (config : RateLimitConfig) (user : User) (now ms : Z) :
  override_limit_expiry user = Some (DateText ms) ->
  effectiveLimit config user now = inl (Thrown getTime_is_not_a_function).
Proof.
  intros He. unfold effectiveLimit, tierBranch. rewrite He. cbn [getTime].
  destruct (override_limit_requests user), (override_limit_window_seconds user);
    reflexivity.
Qed.

(** C3. With all three override fields there and the expiry later than the
    one clock reading of the call, the call is held to the override
    values: it is the rest of [checkRateLimit] run on the override limit
    and window. In every other case of a user whose expiry is a date or
    null (a field missing, the expiry not later than the clock, the
    invalid date) the call is the call of the same user without any
    override, so the partial or expired override brings no error of its
    own, and with an entry of the registry for the tier it is the rest of
    [checkRateLimit] run on the values of that entry. *)
Theorem override_used_iff_active {S} (config : RateLimitConfig) (redis : RedisService S)
    (now : Z) (user : User) :
  (forall limit ws expiry,
     override_limit_requests user = Some limit ->
     override_limit_window_seconds user = Some ws ->
     override_limit_expiry user = Some (ValidDate expiry) ->
     expiry > now ->
     checkRateLimit config redis now user
     = checkRateLimit_with redis now user limit ws) /\
  (~ override_active_spec user now -> dated_expiry user ->
   checkRateLimit config redis now user
   = checkRateLimit config redis now (without_override user) /\
   forall tierConfig,
     config !! tier user = Some tierConfig ->
     checkRateLimit config redis now user
     = checkRateLimit_with redis now user (requests tierConfig) (windowSeconds tierConfig)).
Proof.
  split.
  - intros limit ws expiry Hl Hw He Hgt.
    unfold checkRateLimit, checkRateLimit_with, effectiveLimit.
    rewrite Hl, Hw, He. cbn [getTime].
    destruct (Z.ltb_spec now expiry); [reflexivity | lia].
  - intros Hna Hdated. split.
    + unfold checkRateLimit.
      rewrite effectiveLimit_without_override,
        (effectiveLimit_inactive _ _ _ Hna Hdated).
      reflexivity.
    + intros tierConfig Htier. unfold checkRateLimit, checkRateLimit_with.
      rewrite (effectiveLimit_inactive _ _ _ Hna Hdated).
      unfold tierLimit. rewrite Htier. reflexivity.
Qed.

Lemma override_used_iff_active_witness :
  (* active at 1 s: held to the override, one request per 10 s *)
  (checkRateLimit config_basic MemRedis.service 1000 u_basic
     (checkRateLimit config_basic MemRedis.service 1000 u_basic ∅).2).1
  = inr (RateLimited 10) /\
  (* expired at 300 s: held to the tier, three requests per 20 s *)
  (~ override_active_spec u_basic 300000 /\ dated_expiry u_basic) /\
  (checkRateLimit config_basic MemRedis.service 300000 u_basic
     (checkRateLimit config_basic MemRedis.service 300000 u_basic ∅).2).1
  = inr Allowed /\
  (checkRateLimit config_basic MemRedis.service 300000 u_basic ∅).2
  = {[ "rate_limit:u5:300"%string := {| MemRedis.value := 1; MemRedis.seconds_left := 20 |} ]}.
Proof.
  assert (Hexp : ~ override_active_spec u_basic 300000).
  { intros (_ & _ & expiry & He & Hgt). injection He as <-. lia. }
  assert (Hdated : dated_expiry u_basic) by (intros ms; discriminate).
  pose proof (proj1 (override_used_iff_active config_basic MemRedis.service 1000 u_basic)
                1 10 300000 eq_refl eq_refl eq_refl ltac:(lia)) as Hactive.
  pose proof (proj2 (proj2 (override_used_iff_active config_basic MemRedis.service
                              300000 u_basic) Hexp Hdated)
                {| requests := 3; windowSeconds := 20 |} eq_refl) as Htier.
  split; [|split; [split; [exact Hexp | exact Hdated]|split]].
  - rewrite !Hactive. vm_compute. reflexivity.
  - rewrite !Htier. vm_compute. reflexivity.
  - rewrite Htier. vm_compute. reflexivity.
Defined.

(** The only configuration error of a call that got its limit from
    [effectiveLimit] is the one about the window. *)
Lemma decide_on_count_no_config_error {S} (redis : RedisService S)
    (limit ws : Z) (key : string) (st : S) (e : RateLimitConfigError) :
  (decide_on_count redis limit ws key st).1 <> inl (EConfig e).
Proof.
  unfold decide_on_count, bind, mapError, succeed, failWith.
  destruct (r_eval redis incrWithExpireScript [key] [toString ws] st)
    as [[err|[count|s|]] st1]; simpl; try discriminate.
  destruct (limit <? count); simpl; [|discriminate].
  destruct (r_ttl redis key st1) as [[err|ttl] st2]; simpl; discriminate.
Qed.

Lemma missing_tier_is_not_invalid_window (t : string) (ws : Z) :
  ("Invalid windowSeconds: " +:+ toString ws)%string
  <> ("Config missing for tier " +:+ t)%string.
Proof. simpl. discriminate. Qed.

Lemma EConfig_reason_inj {A} (r1 r2 : string) :
  (inl (EConfig {| reason := r1 |}) : CheckError + A) = inl (EConfig {| reason := r2 |}) ->
  r1 = r2.
Proof. intros H. now injection H. Qed.

Lemma active_never_missing_tier {S} (config : RateLimitConfig) (redis : RedisService S)
    (now : Z) (user : User) (st : S) (t : string) :
  override_active_spec user now ->
  (checkRateLimit config redis now user st).1
  <> inl (EConfig {| reason := "Config missing for tier " +:+ t |}).
Proof.
  intros Hact.
  destruct (effectiveLimit_active config user now Hact) as (limit & ws & _ & _ & Heff).
  unfold checkRateLimit. rewrite Heff.
  destruct (ws <=? 0).
  - unfold failWith. cbn [fst]. intros H. apply EConfig_reason_inj in H.
    now apply missing_tier_is_not_invalid_window in H.
  - apply decide_on_count_no_config_error.
Qed.

(** C10. With an active override the tier configuration is not consulted:
    the call is the same whatever the registry holds, it never fails with
    the missing-tier error, and (on the in-memory Redis, with a positive
    override window) it yields a decision even when the tier has no entry. *)
Theorem active_override_skips_tier_config (config config' : RateLimitConfig)
    (now : Z) (user : User) :
  override_active_spec user now ->
  (forall S (redis : RedisService S),
     checkRateLimit config redis now user = checkRateLimit config' redis now user) /\
  (forall S (redis : RedisService S) (st : S) (t : string),
     (checkRateLimit config redis now user st).1
     <> inl (EConfig {| reason := "Config missing for tier " +:+ t |})) /\
  (forall ws (st : MemRedis.Store),
     override_limit_window_seconds user = Some ws -> 0 < ws ->
     exists decision,
       (checkRateLimit config MemRedis.service now user st).1 = inr decision).
Proof.
  intros Hact.
  destruct (effectiveLimit_active config user now Hact) as (limit & ws & Hl & Hw & Heff).
  destruct (effectiveLimit_active config' user now Hact) as (limit' & ws' & Hl' & Hw' & Heff').
  assert (limit' = limit) as -> by congruence.
  assert (ws' = ws) as -> by congruence.
  split; [|split].
  - intros S redis. unfold checkRateLimit. now rewrite Heff, Heff'.
  - intros S redis st t. now apply active_never_missing_tier.
  - intros w st Hw0 Hpos. assert (w = ws) as -> by congruence.
    rewrite (checkRateLimit_proceeds config MemRedis.service now user limit ws Heff Hpos).
    destruct (MemRedis_decide_on_count limit ws (redisKey user ws now) st Hpos)
      as (st1 & Hrun & _).
    rewrite Hrun. simpl. eauto.
Qed.

Lemma active_override_skips_tier_config_witness :
  override_active_spec u_gold 0 /\
  rateLimitConfigData !! tier u_gold = None /\
  (checkRateLimit rateLimitConfigData MemRedis.service 0 u_gold ∅).1 = inr Allowed /\
  checkRateLimit (∅ : RateLimitConfig) MemRedis.service 0 u_gold
  = checkRateLimit rateLimitConfigData MemRedis.service 0 u_gold.
Proof.
  assert (Hact : override_active_spec u_gold 0).
  { repeat split; try discriminate. exists 300000. split; [reflexivity | lia]. }
  split; [exact Hact|]. split; [reflexivity|]. split; [reflexivity|].
  apply (active_override_skips_tier_config ∅ rateLimitConfigData 0 u_gold Hact).
Defined.

(** ** C6: the configuration errors *)






(** ** C5: the key of a bucket *)

Lemma bucket_spec_div (now ws : Z) : 0 < ws -> bucket_spec now ws = now / 1000 / ws.
Proof.
  intros Hws. destruct ws as [|p|p]; try lia.
  unfold bucket_spec, Qdiv, Qmult, Qinv, inject_Z, Qfloor. simpl.
  rewrite Z.div_div by lia. f_equal; lia.
Qed.

Lemma redisKey_eq_iff (user : User) (ws a b : Z) :
  redisKey user ws a = redisKey user ws b
  <-> windowStartSeconds ws a = windowStartSeconds ws b.
Proof.
  unfold redisKey. split.
  - intros H. repeat apply String.app_inj in H. now apply toString_inj.
  - now intros ->.
Qed.

Lemma windowStartSeconds_eq_iff (ws a b : Z) :
  0 < ws ->
  windowStartSeconds ws a = windowStartSeconds ws b <-> a / 1000 / ws = b / 1000 / ws.
Proof.
  intros Hws. unfold windowStartSeconds. split.
  - intros H. apply Z.mul_cancel_r in H; [exact H | lia].
  - now intros ->.
Qed.

(** C5. The key that the engine derives is
    ["rate_limit:" + user.id + ":" + windowStart] with
    [windowStart = floor(floor(now/1000) / windowSeconds) * windowSeconds],
    it is the key on which the call talks to Redis, and two instants have
    the same key iff [floor(now/1000/windowSeconds)] is the same for both. *)
Theorem redisKey_bucket (user : User) (ws now : Z) :
  0 < ws ->
  redisKey user ws now
    = ("rate_limit:" +:+ id user +:+ ":" +:+ toString (now / 1000 / ws * ws))%string /\
  (forall S (config : RateLimitConfig) (redis : RedisService S) limit,
     effectiveLimit config user now = inr (limit, ws) ->
     checkRateLimit config redis now user
     = decide_on_count redis limit ws
         ("rate_limit:" +:+ id user +:+ ":" +:+ toString (now / 1000 / ws * ws))) /\
  (forall delta,
     redisKey user ws now = redisKey user ws (now + delta)
     <-> bucket_spec (now + delta) ws = bucket_spec now ws).
Proof.
  intros Hws. split; [reflexivity|]. split.
  - intros S config redis limit Heff.
    now rewrite (checkRateLimit_proceeds config redis now user limit ws Heff Hws).
  - intros delta.
    rewrite redisKey_eq_iff, (windowStartSeconds_eq_iff ws _ _ Hws).
    rewrite !bucket_spec_div by exact Hws.
    split; intros H; now symmetry.
Qed.

Lemma redisKey_bucket_witness :
  0 < 60 /\
  redisKey u1 60 59999 = "rate_limit:u1:0"%string /\
  redisKey u1 60 59999 = redisKey u1 60 (59999 + (-59999)) /\
  redisKey u1 60 59999 <> redisKey u1 60 (59999 + 1).
Proof.
  destruct (redisKey_bucket u1 60 59999) as (Hkey & _ & Hiff); [lia|].
  split; [lia|]. split; [exact Hkey|]. split.
  - apply Hiff. reflexivity.
  - intros H. apply Hiff in H. discriminate H.
Defined.

(** ** C1: at most [limit] calls of a bucket are allowed *)

Lemma count_Allowed_cons (r : CheckError + RateLimitStatus) rs :
  count_Allowed (r :: rs) = (if is_Allowed r then 1 else 0) + count_Allowed rs.
Proof.
  unfold count_Allowed. simpl. destruct (is_Allowed r); simpl length; lia.
Qed.

(** One call on the in-memory Redis, in a bucket whose counter is known. *)
Lemma checkRateLimit_MemRedis_step (config : RateLimitConfig) (user : User)
    (limit ws now : Z) (st : MemRedis.Store) :
  effectiveLimit config user now = inr (limit, ws) ->
  0 < ws ->
  exists r st1,
    checkRateLimit config MemRedis.service now user st = (r, st1) /\
    is_Allowed r = (MemRedis.counter (redisKey user ws now) st + 1 <=? limit) /\
    MemRedis.counter (redisKey user ws now) st1
    = MemRedis.counter (redisKey user ws now) st + 1.
Proof.
  intros Heff Hws.
  rewrite (checkRateLimit_proceeds config MemRedis.service now user limit ws Heff Hws).
  destruct (MemRedis_decide_on_count limit ws (redisKey user ws now) st Hws)
    as (st1 & Hrun & Hcnt).
  rewrite Hrun. eexists _, st1. split; [reflexivity|]. split; [|exact Hcnt].
  destruct (Z.ltb_spec limit (MemRedis.counter (redisKey user ws now) st + 1));
    destruct (Z.leb_spec (MemRedis.counter (redisKey user ws now) st + 1) limit);
    try lia; reflexivity.
Qed.

(** The exact number of allowed calls of a sequence that stays in one
    bucket, from any value of the counter. *)
Lemma checkRateLimit_seq_count (config : RateLimitConfig) (user : User)
    (limit ws : Z) (key : string) (clock : list Z) :
  0 < ws ->
  Forall (fun now => effectiveLimit config user now = inr (limit, ws) /\
                     redisKey user ws now = key) clock ->
  forall st : MemRedis.Store,
    count_Allowed (checkRateLimit_seq config MemRedis.service user clock st).1
    = Z.max 0 (Z.min (Z.of_nat (length clock)) (limit - MemRedis.counter key st)).
Proof.
  intros Hws Hall. induction Hall as [|now later [Heff Hkey] _ IH]; intros st.
  - simpl. unfold count_Allowed. simpl. lia.
  - destruct (checkRateLimit_MemRedis_step config user limit ws now st Heff Hws)
      as (r & st1 & Hrun & Hr & Hcnt).
    rewrite Hkey in Hr, Hcnt.
    cbn [checkRateLimit_seq]. rewrite Hrun.
    specialize (IH st1).
    destruct (checkRateLimit_seq config MemRedis.service user later st1) as [rs st2].
    cbn [fst] in *. rewrite count_Allowed_cons, IH, Hr, Hcnt.
    rewrite length_cons, Nat2Z.inj_succ.
    destruct (Z.leb_spec (MemRedis.counter key st + 1) limit); lia.
Qed.

(** C1. For a user and a fixed effective pair [(limit, windowSeconds)] with
    [limit >= 1] and [windowSeconds >= 1], and for every sequence of calls
    whose keys are one and the same bucket, the store being a counter that
    each call increments atomically by one from 0: the number of calls
    that return [Allowed] is at most [limit]. *)
Theorem allowed_never_exceeds_limit (config : RateLimitConfig) (user : User)
    (limit ws : Z) (key : string) (clock : list Z) (st : MemRedis.Store) :
  1 <= limit ->
  1 <= ws ->
  Forall (fun now => effectiveLimit config user now = inr (limit, ws) /\
                     redisKey user ws now = key) clock ->
  st !! key = None ->
  count_Allowed (checkRateLimit_seq config MemRedis.service user clock st).1 <= limit.
Proof.
  intros Hlimit Hws Hall Hfresh.
  rewrite (checkRateLimit_seq_count config user limit ws key clock) by (lia || exact Hall).
  unfold MemRedis.counter. rewrite Hfresh. lia.
Qed.

Lemma allowed_never_exceeds_limit_witness :
  Forall (fun now => effectiveLimit rateLimitConfigData u2 now = inr (2, 30) /\
                     redisKey u2 30 now = "rate_limit:u2:0"%string)
         [0; 500; 29999; 1000] /\
  count_Allowed
    (checkRateLimit_seq rateLimitConfigData MemRedis.service u2 [0; 500; 29999; 1000] ∅).1
  <= 2.
Proof.
  assert (H : Forall (fun now => effectiveLimit rateLimitConfigData u2 now = inr (2, 30) /\
                                 redisKey u2 30 now = "rate_limit:u2:0"%string)
                     [0; 500; 29999; 1000]).
  { repeat constructor. }
  split; [exact H|].
  apply (allowed_never_exceeds_limit rateLimitConfigData u2 2 30 "rate_limit:u2:0"
           [0; 500; 29999; 1000] ∅); [lia | lia | exact H | reflexivity].
Defined.

(** The bound of C1 is reached: exactly [min N limit] of [N] calls are
    allowed. *)
Lemma allowed_exactly_limit (config : RateLimitConfig) (user : User)
    (limit ws : Z) (key : string) (clock : list Z) (st : MemRedis.Store) :
  1 <= limit ->
  1 <= ws ->
  Forall (fun now => effectiveLimit config user now = inr (limit, ws) /\
                     redisKey user ws now = key) clock ->
  st !! key = None ->
  count_Allowed (checkRateLimit_seq config MemRedis.service user clock st).1
  = Z.min (Z.of_nat (length clock)) limit.
Proof.
  intros Hlimit Hws Hall Hfresh.
  rewrite (checkRateLimit_seq_count config user limit ws key clock) by (lia || exact Hall).
  unfold MemRedis.counter. rewrite Hfresh. lia.
Qed.

(** *** The same bound under every interleaving *)

(** Two steps of a caller are the call. *)
Lemma caller_step_twice {S} (config : RateLimitConfig) (redis : RedisService S)
    (user : User) (now : Z) (st : S) :
  let (c1, st1) := caller_step config redis user (Start now) st in
  caller_step config redis user c1 st1
  = (Done (checkRateLimit config redis now user st).1,
     (checkRateLimit config redis now user st).2).
Proof.
  unfold caller_step, checkRateLimit.
  destruct (effectiveLimit config user now) as [e|[limit ws]]; [reflexivity|].
  destruct (ws <=? 0); [reflexivity|].
  unfold decide_on_count, bind, mapError, succeed, failWith.
  destruct (r_eval redis incrWithExpireScript [redisKey user ws now] [toString ws] st)
    as [[e|[count|s|]] st1]; try reflexivity.
  destruct (limit <? count); [|reflexivity].
  destruct (r_ttl redis (redisKey user ws now) st1) as [[e|ttl] st2]; reflexivity.
Qed.

Lemma allowed_callers_app (l1 l2 : list Caller) :
  allowed_callers (l1 ++ l2) = allowed_callers l1 + allowed_callers l2.
Proof.
  unfold allowed_callers. rewrite List.filter_app, length_app. lia.
Qed.

Lemma allowed_callers_cons (c : Caller) (l : list Caller) :
  allowed_callers (c :: l) = (if is_Done_Allowed c then 1 else 0) + allowed_callers l.
Proof.
  unfold allowed_callers. simpl. destruct (is_Done_Allowed c); simpl length; lia.
Qed.

Section Interleaving.

Variable config : RateLimitConfig.
Variable user : User.
Variables limit ws : Z.
Variable key : string.
Hypothesis limit_nonneg : 0 <= limit.
Hypothesis ws_pos : 0 < ws.

Lemma caller_step_bucket (c c' : Caller) (st st' : MemRedis.Store) :
  of_bucket config user limit ws key c ->
  caller_step config MemRedis.service user c st = (c', st') ->
  of_bucket config user limit ws key c' /\
  MemRedis.counter key st <= MemRedis.counter key st' /\
  (is_Done_Allowed c' = true -> is_Done_Allowed c = false ->
   MemRedis.counter key st' = MemRedis.counter key st + 1 /\
   MemRedis.counter key st' <= limit) /\
  (is_Done_Allowed c = true -> is_Done_Allowed c' = true).
Proof.
  destruct c as [now|k w|r]; cbn [caller_step of_bucket].
  - intros [Heff Hkey]. rewrite Heff.
    destruct (Z.leb_spec ws 0); [lia|].
    rewrite Hkey, MemRedis_eval.
    destruct (MemRedis_incrWithExpire key ws st ws_pos) as (st1 & -> & Hcnt).
    destruct (Z.ltb_spec limit (MemRedis.counter key st + 1));
      intros [= <- <-]; simpl; repeat split; try lia; discriminate.
  - intros _. cbn [MemRedis.service r_ttl]. intros [= <- <-].
    simpl. repeat split; try lia; discriminate.
  - intros _ [= <- <-]. simpl. repeat split; try lia; congruence.
Qed.

Lemma pool_step_bucket_inv (x y : list Caller * MemRedis.Store) :
  pool_step config MemRedis.service user x y ->
  bucket_inv config user limit ws key x ->
  bucket_inv config user limit ws key y.
Proof.
  intros Hstep [Hall Hcount].
  destruct Hstep as [before after c c' st st' Hc]. cbn [fst snd] in *.
  apply Forall_app in Hall as [Hbefore Hafter].
  apply Forall_cons in Hafter as [Hc0 Hafter].
  destruct (caller_step_bucket c c' st st' Hc0 Hc) as (Hc' & Hmono & Hnew & Hkeep).
  split; cbn [fst snd].
  - apply Forall_app. split; [exact Hbefore|]. now constructor.
  - rewrite allowed_callers_app, allowed_callers_cons in Hcount.
    rewrite allowed_callers_app, allowed_callers_cons.
    destruct (is_Done_Allowed c) eqn:Ec, (is_Done_Allowed c') eqn:Ec'.
    + lia.
    + specialize (Hkeep eq_refl). discriminate.
    + destruct (Hnew eq_refl eq_refl). lia.
    + lia.
Qed.

(** Whatever the interleaving of the callers of one bucket, from a store
    in which the bucket has no key: at most [limit] of them are allowed. *)
Lemma allowed_under_interleaving (pool pool' : list Caller) (st st' : MemRedis.Store) :
  Forall (of_bucket config user limit ws key) pool ->
  allowed_callers pool = 0 ->
  st !! key = None ->
  rtc (pool_step config MemRedis.service user) (pool, st) (pool', st') ->
  allowed_callers pool' <= limit.
Proof.
  intros Hall Hzero Hfresh Hrun.
  assert (Hinv : bucket_inv config user limit ws key (pool', st')).
  { eapply (rtc_ind_r (fun y => bucket_inv config user limit ws key y) (pool, st));
      [| |exact Hrun].
    - split; [exact Hall|]. cbn [fst snd]. rewrite Hzero.
      unfold MemRedis.counter. rewrite Hfresh. lia.
    - intros y z _ Hstep IH. now apply (pool_step_bucket_inv y z). }
  destruct Hinv as [_ Hcount]. cbn [fst snd] in Hcount. lia.
Qed.

End Interleaving.

(** ** C7: the override writer *)


(** ** C8 and C9: what the handlers answer *)

(** An entry of a [catchTags] table, and the function of a [catchAll],
    never fail with the response they build. *)
Lemma catchAll_pipe_Effect_fail {S E R A} (response : E -> R)
    (m : Effect S (Cause E) A) (st : S) (r : R) :
  (catchAll (fun e => pipe_Effect_fail (response e)) m st).1 <> inl (Fail r).
Proof.
  unfold catchAll, pipe_Effect_fail, die, failWith.
  destruct (m st) as [[[e|defect]|a] st']; discriminate.
Qed.

(** A failure of the body of a handler whose table has an entry for every
    tag ends in the defect of that entry. *)
Lemma catchAll_catchTags_dies {S E R A} (response : E -> R) (last : R)
    (m : Effect S (Cause E) A) (st : S) :
  catchAll (fun _ => pipe_Effect_fail last)
    (catchTags (fun e => Some (pipe_Effect_fail (response e))) m) st
  = match m st with
    | (inl (Fail _), st') => (inl (Die pipe_argument_is_not_a_function), st')
    | (inl (Die defect), st') => (inl (Die defect), st')
    | (inr a, st') => (inr a, st')
    end.
Proof.
  unfold catchAll, catchTags, pipe_Effect_fail, die, failWith.
  destruct (m st) as [[[e|defect]|a] st']; reflexivity.
Qed.

(** The value that [checkRateLimitHandler] returns follows the decision. *)
Lemma checkRateLimitHandler_body_decision {D S} (supabase : SupabaseClientService D)
    (redis : RedisService S) (config : RateLimitConfig) (now : Z) (userId : string)
    (user : User) (d d1 : D) (s s1 : S) (decision : RateLimitStatus) :
  s_select supabase userId d = (inr {| data := Some user; error := None |}, d1) ->
  checkRateLimit config redis now user s = (inr decision, s1) ->
  checkRateLimitHandler supabase redis config now userId (d, s)
  = (inr match decision with
         | Allowed => {| statusCode := 200; status := "ALLOWED"; RetryAfter := None |}
         | RateLimited n => {| statusCode := 429; status := "NOT ALLOWED";
                               RetryAfter := Some (toString n) |}
         end, (d1, s1)).
Proof.
  intros Hsel Hrun.
  unfold checkRateLimitHandler. rewrite catchAll_catchTags_dies.
  unfold checkRateLimitHandler_body, fetchUser, bind, mapError, onSupabase, onRedis, succeed.
  cbn [fst snd]. rewrite Hsel. cbn [error data fst snd]. rewrite Hrun.
  destruct decision; reflexivity.
Qed.

(** C9, evaluated. The eleventh call of [u1] in a bucket: the handler
    succeeds with the object [{statusCode: 429, status: "NOT ALLOWED",
    RetryAfter: "60"}]. The object is the whole of what the handler gives
    back: it builds no response, so no status line and no [Retry-After]
    header come from this code. *)
Theorem checkRateLimitHandler_rate_limited :
  (checkRateLimitHandler MemSupabase.service MemRedis.service rateLimitConfigData
     0 "u1" (users_u1, store_after_ten)).1
  = inr {| statusCode := 429; status := "NOT ALLOWED"; RetryAfter := Some "60"%string |}.
Proof. vm_compute. reflexivity. Qed.

(** C8. The table of [testCombinedLogicHandler] builds answers with bare
    strings ("DB Error", the message, "Cache Error", "Config Error") where
    the table of [checkRateLimitHandler] builds objects [{error: ...}];
    and none of these answers leaves its handler. Every entry hands its
    answer to [pipe] as [Effect.fail(...)], which is no function, so
    whatever the services do, no run of either handler fails with a
    response; a missing user ends both handlers in the defect of the
    entry, with no 404 and no body built by this code. *)
Theorem error_mapping_differs_between_endpoints :
  (forall e, testCombinedLogicHandler_catchTags (TagSupabaseError e)
             = {| res_status := 500; res_headers := [];
                  res_body := Some (JString "DB Error") |}) /\
  (forall e, checkRateLimitHandler_catchTags (TagSupabaseError e)
             = {| res_status := 500; res_headers := [];
                  res_body := Some (JObject [("error"%string, "Database error"%string)]) |}) /\
  (forall m, testCombinedLogicHandler_catchTags (TagNotFoundError m)
             = {| res_status := 404; res_headers := []; res_body := Some (JString m) |}) /\
  (forall m, checkRateLimitHandler_catchTags (TagNotFoundError m)
             = {| res_status := 404; res_headers := [];
                  res_body := Some (JObject [("error"%string, m)]) |}) /\
  (forall D S (supabase : SupabaseClientService D) (redis : RedisService S)
          (config : RateLimitConfig) (now : Z) (userId : string) (st : D * S)
          (response : ServerResponse),
     (checkRateLimitHandler supabase redis config now userId st).1 <> inl (Fail response) /\
     (testCombinedLogicHandler supabase redis config now userId st).1
     <> inl (Fail response)) /\
  testCombinedLogicHandler MemSupabase.service MemRedis.service rateLimitConfigData
    0 "u9" (users_u1, ∅)
  = (inl (Die pipe_argument_is_not_a_function), (users_u1, ∅)) /\
  checkRateLimitHandler MemSupabase.service MemRedis.service rateLimitConfigData
    0 "u9" (users_u1, ∅)
  = (inl (Die pipe_argument_is_not_a_function), (users_u1, ∅)).
Proof.
  split; [reflexivity|]. split; [reflexivity|]. split; [reflexivity|].
  split; [reflexivity|]. split; [|split; vm_compute; reflexivity].
  intros D S supabase redis config now userId st response. split.
  - apply (catchAll_pipe_Effect_fail (fun _ => unexpected_server_error)).
  - apply (catchAll_pipe_Effect_fail (fun _ => internalServerError None)).
Qed.

(** * Further properties of the code *)

(** ** The window and the key *)

(** X1. The start of the window is a multiple of the window length, and the
    clock reading lies in the window that starts there: 
    [windowStart <= now / 1000 < windowStart + windowSeconds]. *)
Theorem windowStartSeconds_bounds (ws now : Z) :
  0 < ws ->
  windowStartSeconds ws now mod ws = 0 /\
  windowStartSeconds ws now <= now / 1000 < windowStartSeconds ws now + ws /\
  1000 * windowStartSeconds ws now <= now < 1000 * (windowStartSeconds ws now + ws).
Proof.
  intros Hws. unfold windowStartSeconds.
  pose proof (Z.mod_pos_bound (now / 1000) ws Hws) as Hmod.
  pose proof (Z.div_mod (now / 1000) ws ltac:(lia)) as Hdiv.
  pose proof (Z.mod_pos_bound now 1000 ltac:(lia)) as Hmod'.
  pose proof (Z.div_mod now 1000 ltac:(lia)) as Hdiv'.
  split; [apply Z.mod_mul; lia|]. split; lia.
Qed.

Lemma windowStartSeconds_bounds_witness :
  0 < 60 /\
  windowStartSeconds 60 125500 = 120 /\
  1000 * windowStartSeconds 60 125500 <= 125500
    < 1000 * (windowStartSeconds 60 125500 + 60).
Proof.
  split; [lia|]. split; [reflexivity|].
  apply (windowStartSeconds_bounds 60 125500). lia.
Defined.

Lemma colon_free_string_of_uint (d : Decimal.uint) :
  colon_free (NilEmpty.string_of_uint d) = true.
Proof. induction d; simpl; auto. Qed.

Lemma colon_free_toString (n : Z) : colon_free (toString n) = true.
Proof.
  unfold toString, NilZero.string_of_int, NilZero.string_of_uint.
  destruct (Z.to_int n) as [d|d]; destruct d; simpl;
    try reflexivity; apply colon_free_string_of_uint.
Qed.

Lemma append_nil_l (x : string) : ("" +:+ x = x)%string.
Proof. reflexivity. Qed.

Lemma append_cons_l (a : ascii) (s x : string) :
  (String a s +:+ x = String a (s +:+ x))%string.
Proof. reflexivity. Qed.

Lemma colon_free_app_colon (s1 s2 : string) :
  colon_free (s1 +:+ String ":" s2) = false.
Proof.
  induction s1 as [|a s1 IH].
  - reflexivity.
  - rewrite append_cons_l. cbn [colon_free]. rewrite IH. apply andb_false_r.
Qed.

(** A text is cut in one way only at its last colon. *)
Lemma split_at_last_colon (s1 s2 d1 d2 : string) :
  colon_free d1 = true -> colon_free d2 = true ->
  (s1 +:+ ":" +:+ d1 = s2 +:+ ":" +:+ d2)%string ->
  s1 = s2 /\ d1 = d2.
Proof.
  intros H1 H2. revert s2.
  induction s1 as [|a s1 IH]; intros [|b s2] Heq;
    rewrite ?append_nil_l, ?append_cons_l, ?append_nil_l in Heq.
  - injection Heq as <-. auto.
  - injection Heq as <- ->. pose proof (colon_free_app_colon s2 d2). congruence.
  - injection Heq as -> <-. pose proof (colon_free_app_colon s1 d1). congruence.
  - injection Heq as <- Heq. destruct (IH s2 Heq) as [<- <-]. auto.
Qed.

Lemma redisKey_eq_inv (u u' : User) (ws ws' now now' : Z) :
  redisKey u ws now = redisKey u' ws' now' ->
  id u = id u' /\ windowStartSeconds ws now = windowStartSeconds ws' now'.
Proof.
  unfold redisKey. intros H. apply String.app_inj in H.
  apply split_at_last_colon in H; try apply colon_free_toString.
  destruct H as [Hid Hstart]. split; [exact Hid|]. now apply toString_inj.
Qed.

(** X2. Two keys are the same only for the same user id and the same start
    of window, whatever the ids are made of: the calls of two users never
    meet on one counter. *)
Theorem redisKey_injective (u u' : User) (ws ws' now now' : Z) :
  redisKey u ws now = redisKey u' ws' now'
  <-> id u = id u' /\ windowStartSeconds ws now = windowStartSeconds ws' now'.
Proof.
  split.
  - apply redisKey_eq_inv.
  - unfold redisKey. intros [-> ->]. reflexivity.
Qed.

(** ** The engine on any Redis *)

(** X3. Whatever Redis answers, the delay of a [RateLimited] decision is
    not negative: it is the TTL when that is [>= 0] and otherwise the
    window, which is positive past the check of line 238. *)
Theorem retryAfterSeconds_nonneg {S} (config : RateLimitConfig) (redis : RedisService S)
    (now : Z) (user : User) (st st' : S) (retryAfterSeconds : Z) :
  checkRateLimit config redis now user st = (inr (RateLimited retryAfterSeconds), st') ->
  0 <= retryAfterSeconds.
Proof.
  unfold checkRateLimit.
  destruct (effectiveLimit config user now) as [e|[limit ws]]; [discriminate|].
  destruct (Z.leb_spec ws 0); [discriminate|].
  unfold decide_on_count, bind, mapError, succeed, failWith.
  destruct (r_eval redis incrWithExpireScript [redisKey user ws now] [toString ws] st)
    as [[e|[count|s|]] st1]; try discriminate.
  destruct (limit <? count); [|discriminate].
  destruct (r_ttl redis (redisKey user ws now) st1) as [[e|ttl] st2]; [discriminate|].
  intros [= <- _]. destruct (Z.leb_spec 0 ttl); lia.
Qed.

Lemma retryAfterSeconds_nonneg_witness :
  checkRateLimit rateLimitConfigData redis_no_expiry 0 u1 tt
    = (inr (RateLimited 60), tt) /\
  0 <= 60.
Proof.
  split; [reflexivity|].
  apply (retryAfterSeconds_nonneg rateLimitConfigData redis_no_expiry 0 u1 tt tt 60).
  reflexivity.
Defined.

(** X4. A call that ends in a configuration error has not talked to Redis:
    the state of Redis is the one before the call, and the outcome is the
    same on any other Redis. *)
Theorem config_error_leaves_redis_alone {S S'} (config : RateLimitConfig)
    (redis : RedisService S) (redis' : RedisService S')
    (now : Z) (user : User) (st : S) (st' : S') (e : RateLimitConfigError) :
  (checkRateLimit config redis now user st).1 = inl (EConfig e) ->
  checkRateLimit config redis now user st = (inl (EConfig e), st) /\
  checkRateLimit config redis' now user st' = (inl (EConfig e), st').
Proof.
  unfold checkRateLimit.
  destruct (effectiveLimit config user now) as [e0|[limit ws]].
  - unfold failWith. cbn [fst]. intros [= <-]. auto.
  - destruct (ws <=? 0).
    + unfold failWith. cbn [fst]. intros [= <-]. auto.
    + intros H. now apply decide_on_count_no_config_error in H.
Qed.

Lemma config_error_leaves_redis_alone_witness :
  (checkRateLimit rateLimitConfigData MemRedis.service 0 (without_override u_gold)
     store_after_ten).1
    = inl (EConfig {| reason := "Config missing for tier gold" |}) /\
  (checkRateLimit rateLimitConfigData MemRedis.service 0 (without_override u_gold)
     store_after_ten).2 = store_after_ten /\
  checkRateLimit rateLimitConfigData redis_down 0 (without_override u_gold) tt
    = (inl (EConfig {| reason := "Config missing for tier gold" |}), tt).
Proof.
  assert (H : (checkRateLimit rateLimitConfigData MemRedis.service 0
                 (without_override u_gold) store_after_ten).1
              = inl (EConfig {| reason := "Config missing for tier gold" |}))
    by reflexivity.
  split; [exact H|].
  destruct (config_error_leaves_redis_alone rateLimitConfigData MemRedis.service
              redis_down 0 (without_override u_gold) store_after_ten tt _ H)
    as [H1 H2].
  split; [now rewrite H1 | exact H2].
Defined.

(** X5. The failures of Redis are the failures of the call. A failed
    script ends the call with that error; an answer of the script that is
    no number ends it with "Unexpected non-number result type from Redis
    EVAL: <type>"; a failed TTL read on the over-limit path ends it with
    that error. In the first two cases the TTL is not read. *)
Theorem redis_failures_propagate {S} (config : RateLimitConfig) (redis : RedisService S)
    (now : Z) (user : User) (st st1 : S) (limit ws : Z)
    (answer : RedisError + Unknown) :
  effectiveLimit config user now = inr (limit, ws) ->
  0 < ws ->
  r_eval redis incrWithExpireScript [redisKey user ws now] [toString ws] st
    = (answer, st1) ->
  match answer with
  | inl e => checkRateLimit config redis now user st = (inl (ERedis e), st1)
  | inr (UNumber count) =>
      count > limit ->
      forall e st2, r_ttl redis (redisKey user ws now) st1 = (inl e, st2) ->
                    checkRateLimit config redis now user st = (inl (ERedis e), st2)
  | inr v =>
      checkRateLimit config redis now user st
      = (inl (ERedis {| cause := "Unexpected non-number result type from Redis EVAL: "
                                 +:+ typeof v |}), st1)
  end.
Proof.
  intros Heff Hws Heval.
  rewrite (checkRateLimit_proceeds config redis now user limit ws Heff Hws).
  unfold decide_on_count, bind, mapError, succeed, failWith. rewrite Heval.
  destruct answer as [e|[count|s|]]; try reflexivity.
  intros Hc e st2 Httl. destruct (Z.ltb_spec limit count); [|lia].
  now rewrite Httl.
Qed.

Lemma redis_failures_propagate_witness :
  effectiveLimit rateLimitConfigData u1 0 = inr (10, 60) /\
  checkRateLimit rateLimitConfigData redis_down 0 u1 tt
    = (inl (ERedis {| cause := "ECONNREFUSED" |}), tt) /\
  checkRateLimit rateLimitConfigData redis_text 0 u1 tt
    = (inl (ERedis {| cause :=
         "Unexpected non-number result type from Redis EVAL: string" |}), tt).
Proof.
  split; [reflexivity|]. split.
  - apply (redis_failures_propagate rateLimitConfigData redis_down 0 u1 tt tt 10 60
             (inl {| cause := "ECONNREFUSED" |})); [reflexivity | lia | reflexivity].
  - apply (redis_failures_propagate rateLimitConfigData redis_text 0 u1 tt tt 10 60
             (inr (UString "OK"))); [reflexivity | lia | reflexivity].
Defined.

(** ** The script and the engine on the in-memory Redis *)

Lemma incrWithExpire_frame (key arg k : string) (st : MemRedis.Store) :
  k <> key ->
  (MemRedis.incrWithExpire [key] [arg] st).2 !! k = st !! k.
Proof.
  intros Hne. unfold MemRedis.incrWithExpire, MemRedis.INCR, MemRedis.EXPIRE.
  destruct (st !! key) as [e|] eqn:E.
  - destruct (MemRedis.value e + 1 =? 1); cbn [snd]; [|now rewrite lookup_insert_ne].
    destruct (tonumber arg) as [secs|]; cbn [snd]; [|now rewrite lookup_insert_ne].
    rewrite lookup_insert_eq. destruct (secs <=? 0).
    + rewrite lookup_delete_ne by congruence. now rewrite lookup_insert_ne.
    + rewrite !lookup_insert_ne by congruence. reflexivity.
  - cbn [Z.eqb Pos.eqb]. destruct (tonumber arg) as [secs|]; cbn [snd];
      [|now rewrite lookup_insert_ne].
    rewrite lookup_insert_eq. destruct (secs <=? 0).
    + rewrite lookup_delete_ne by congruence. now rewrite lookup_insert_ne.
    + rewrite !lookup_insert_ne by congruence. reflexivity.
Qed.

Lemma incrWithExpire_fresh (key : string) (ws : Z) (st : MemRedis.Store) :
  0 < ws ->
  st !! key = None ->
  (MemRedis.incrWithExpire [key] [toString ws] st).2 !! key
  = Some {| MemRedis.value := 1; MemRedis.seconds_left := ws |}.
Proof.
  intros Hws Hfresh. unfold MemRedis.incrWithExpire, MemRedis.INCR, MemRedis.EXPIRE.
  rewrite Hfresh, tonumber_toString. cbn [Z.eqb Pos.eqb snd].
  rewrite lookup_insert_eq. destruct (Z.leb_spec ws 0); [lia|].
  now rewrite lookup_insert_eq.
Qed.

Lemma incrWithExpire_again (key : string) (ws : Z) (st : MemRedis.Store)
    (e : MemRedis.Entry) :
  st !! key = Some e ->
  MemRedis.value e <> 0 ->
  (MemRedis.incrWithExpire [key] [toString ws] st).2 !! key
  = Some {| MemRedis.value := MemRedis.value e + 1;
            MemRedis.seconds_left := MemRedis.seconds_left e |}.
Proof.
  intros He Hv. unfold MemRedis.incrWithExpire, MemRedis.INCR.
  rewrite He. destruct (Z.eqb_spec (MemRedis.value e + 1) 1); [lia|].
  cbn [snd]. now rewrite lookup_insert_eq.
Qed.

(** X6. What the script does to a key. A key that is not there is created
    with the value 1 and the expiry [ARGV[1]]; a key that holds a value
    other than 0 is incremented and keeps the expiry it has (the expiry is
    not extended); no other key of the store changes. *)
Theorem incrWithExpire_ttl_policy (key : string) (ws : Z) (st : MemRedis.Store) :
  0 < ws ->
  (st !! key = None ->
   (MemRedis.incrWithExpire [key] [toString ws] st).2 !! key
   = Some {| MemRedis.value := 1; MemRedis.seconds_left := ws |}) /\
  (forall e, st !! key = Some e -> MemRedis.value e <> 0 ->
   (MemRedis.incrWithExpire [key] [toString ws] st).2 !! key
   = Some {| MemRedis.value := MemRedis.value e + 1;
             MemRedis.seconds_left := MemRedis.seconds_left e |}) /\
  (forall k, k <> key ->
   (MemRedis.incrWithExpire [key] [toString ws] st).2 !! k = st !! k).
Proof.
  intros Hws. split; [|split].
  - now apply incrWithExpire_fresh.
  - intros e. apply incrWithExpire_again.
  - intros k. apply incrWithExpire_frame.
Qed.

Lemma incrWithExpire_ttl_policy_witness :
  0 < 60 /\
  MemRedis.TTL "rate_limit:u1:0"
    (MemRedis.incrWithExpire ["rate_limit:u1:0"%string] [toString 60] ∅).2 = 60 /\
  MemRedis.TTL "rate_limit:u1:0"
    (MemRedis.incrWithExpire ["rate_limit:u1:0"%string] [toString 999] store_after_ten).2
  = 60.
Proof.
  destruct (incrWithExpire_ttl_policy "rate_limit:u1:0" 60 ∅) as (Hfresh & _ & _); [lia|].
  destruct (incrWithExpire_ttl_policy "rate_limit:u1:0" 999 store_after_ten)
    as (_ & Hagain & _); [lia|].
  split; [lia|]. split.
  - unfold MemRedis.TTL. now rewrite Hfresh.
  - unfold MemRedis.TTL.
    rewrite (Hagain {| MemRedis.value := 10; MemRedis.seconds_left := 60 |});
      [reflexivity | reflexivity | discriminate].
Defined.

(** The state that a call leaves is the state that the script leaves. *)
Lemma MemRedis_decide_state (limit ws : Z) (key : string) (st : MemRedis.Store) :
  (decide_on_count MemRedis.service limit ws key st).2
  = (MemRedis.incrWithExpire [key] [toString ws] st).2.
Proof.
  unfold decide_on_count, bind, mapError, succeed, failWith.
  rewrite MemRedis_eval.
  destruct (MemRedis.incrWithExpire [key] [toString ws] st) as [[e|[count|s|]] st1];
    try reflexivity.
  destruct (limit <? count); reflexivity.
Qed.

Lemma checkRateLimit_frame (config : RateLimitConfig) (now : Z) (user : User)
    (st : MemRedis.Store) (k : string) :
  (forall ws, k <> redisKey user ws now) ->
  (checkRateLimit config MemRedis.service now user st).2 !! k = st !! k.
Proof.
  intros Hk. unfold checkRateLimit.
  destruct (effectiveLimit config user now) as [e|[limit ws]]; [reflexivity|].
  destruct (ws <=? 0); [reflexivity|].
  rewrite MemRedis_decide_state. apply incrWithExpire_frame, Hk.
Qed.

(** X7. A call of one user changes nothing in the counters of another: for
    users with different ids, every key of the other user holds after the
    call what it held before. *)
Theorem other_users_untouched (config : RateLimitConfig) (now : Z) (user : User)
    (st : MemRedis.Store) (other : User) (ws' now' : Z) :
  id user <> id other ->
  (checkRateLimit config MemRedis.service now user st).2 !! redisKey other ws' now'
  = st !! redisKey other ws' now'.
Proof.
  intros Hid. apply checkRateLimit_frame.
  intros ws Heq. symmetry in Heq. apply redisKey_eq_inv in Heq. tauto.
Qed.

Lemma other_users_untouched_witness :
  id u2 <> id u1 /\
  (checkRateLimit rateLimitConfigData MemRedis.service 0 u2 store_after_ten).2
    !! redisKey u1 60 0
  = Some {| MemRedis.value := 10; MemRedis.seconds_left := 60 |}.
Proof.
  assert (H : id u2 <> id u1) by discriminate.
  split; [exact H|].
  rewrite (other_users_untouched rateLimitConfigData 0 u2 store_after_ten u1 60 0 H).
  reflexivity.
Defined.

(** One call in a bucket, with its decision. *)
Lemma checkRateLimit_MemRedis_decision (config : RateLimitConfig) (user : User)
    (limit ws now : Z) (st : MemRedis.Store) :
  effectiveLimit config user now = inr (limit, ws) ->
  0 < ws ->
  exists st1,
    (checkRateLimit config MemRedis.service now user st
     = (inr Allowed, st1) /\
     MemRedis.counter (redisKey user ws now) st + 1 <= limit \/
     exists n, checkRateLimit config MemRedis.service now user st
               = (inr (RateLimited n), st1) /\
               MemRedis.counter (redisKey user ws now) st + 1 > limit) /\
    MemRedis.counter (redisKey user ws now) st1
    = MemRedis.counter (redisKey user ws now) st + 1.
Proof.
  intros Heff Hws.
  rewrite (checkRateLimit_proceeds config MemRedis.service now user limit ws Heff Hws).
  destruct (MemRedis_decide_on_count limit ws (redisKey user ws now) st Hws)
    as (st1 & Hrun & Hcnt).
  exists st1. split; [|exact Hcnt]. rewrite Hrun.
  destruct (Z.ltb_spec limit (MemRedis.counter (redisKey user ws now) st + 1)).
  - right. eexists. split; [reflexivity | lia].
  - left. split; [reflexivity | lia].
Qed.

(** X8. Every call that reaches Redis counts, allowed or not: after [N]
    calls of one bucket the counter of the bucket has grown by [N]. *)
Theorem every_call_counts (config : RateLimitConfig) (user : User)
    (limit ws : Z) (key : string) (clock : list Z) (st : MemRedis.Store) :
  0 < ws ->
  Forall (fun now => effectiveLimit config user now = inr (limit, ws) /\
                     redisKey user ws now = key) clock ->
  MemRedis.counter key (checkRateLimit_seq config MemRedis.service user clock st).2
  = MemRedis.counter key st + Z.of_nat (length clock).
Proof.
  intros Hws Hall. revert st.
  induction Hall as [|now later [Heff Hkey] _ IH]; intros st.
  - simpl. lia.
  - destruct (checkRateLimit_MemRedis_step config user limit ws now st Heff Hws)
      as (r & st1 & Hrun & _ & Hcnt).
    rewrite Hkey in Hcnt. cbn [checkRateLimit_seq]. rewrite Hrun.
    specialize (IH st1).
    destruct (checkRateLimit_seq config MemRedis.service user later st1) as [rs st2].
    cbn [snd] in *. rewrite IH, Hcnt, length_cons. lia.
Qed.

Lemma every_call_counts_witness :
  MemRedis.counter "rate_limit:u2:0"
    (checkRateLimit_seq rateLimitConfigData MemRedis.service u2 [0; 500; 29999; 1000] ∅).2
  = 0 + 4.
Proof.
  rewrite (every_call_counts rateLimitConfigData u2 2 30 "rate_limit:u2:0"
             [0; 500; 29999; 1000] ∅); [reflexivity | lia | repeat constructor].
Defined.

(** X9. The decisions of a bucket come in order: the call that takes the
    counter to [c] is allowed iff [c <= limit] and is told [RateLimited]
    otherwise. So after the first refusal every later call of the bucket
    is refused. *)
Theorem decisions_in_order (config : RateLimitConfig) (user : User)
    (limit ws : Z) (key : string) (clock : list Z) :
  0 < ws ->
  Forall (fun now => effectiveLimit config user now = inr (limit, ws) /\
                     redisKey user ws now = key) clock ->
  forall (st : MemRedis.Store) (i : nat) (r : CheckError + RateLimitStatus),
    (checkRateLimit_seq config MemRedis.service user clock st).1 !! i = Some r ->
    r = inr Allowed /\ MemRedis.counter key st + Z.of_nat i + 1 <= limit \/
    exists n, r = inr (RateLimited n) /\
              MemRedis.counter key st + Z.of_nat i + 1 > limit.
Proof.
  intros Hws Hall.
  induction Hall as [|now later [Heff Hkey] _ IH]; intros st i r.
  - simpl. intros H. discriminate.
  - destruct (checkRateLimit_MemRedis_decision config user limit ws now st Heff Hws)
      as (st1 & Hrun & Hcnt).
    rewrite Hkey in Hrun, Hcnt. cbn [checkRateLimit_seq].
    specialize (IH st1).
    destruct i as [|i].
    + destruct Hrun as [[Hrun Hle]|(n & Hrun & Hgt)]; rewrite Hrun;
        destruct (checkRateLimit_seq config MemRedis.service user later st1) as [rs st2];
        cbn; intros [= <-].
      * left. split; [reflexivity | lia].
      * right. exists n. split; [reflexivity | lia].
    + assert (Hlater :
        (checkRateLimit_seq config MemRedis.service user (now :: later) st).1 !! S i
        = (checkRateLimit_seq config MemRedis.service user later st1).1 !! i).
      { cbn [checkRateLimit_seq].
        destruct Hrun as [[Hrun _]|(n & Hrun & _)]; rewrite Hrun;
          destruct (checkRateLimit_seq config MemRedis.service user later st1);
          reflexivity. }
      cbn [checkRateLimit_seq] in Hlater. rewrite Hlater. intros Hr.
      specialize (IH i r Hr). rewrite Hcnt in IH.
      destruct IH as [[-> Hle]|(n & -> & Hgt)].
      * left. split; [reflexivity | lia].
      * right. exists n. split; [reflexivity | lia].
Qed.

Lemma decisions_in_order_witness :
  (checkRateLimit_seq rateLimitConfigData MemRedis.service u2 [0; 500; 29999; 1000] ∅).1
    !! 2%nat = Some (inr (RateLimited 30)) /\
  MemRedis.counter "rate_limit:u2:0" ∅ + Z.of_nat 2 + 1 > 2.
Proof.
  assert (H : (checkRateLimit_seq rateLimitConfigData MemRedis.service u2
                 [0; 500; 29999; 1000] ∅).1 !! 2%nat
              = Some (inr (RateLimited 30))) by reflexivity.
  split; [exact H|].
  destruct (decisions_in_order rateLimitConfigData u2 2 30 "rate_limit:u2:0"
              [0; 500; 29999; 1000] ltac:(lia) ltac:(repeat constructor)
              ∅ 2%nat _ H) as [[Hr _]|(n & _ & Hgt)].
  - discriminate Hr.
  - exact Hgt.
Defined.

(** ** The stats handler *)

Lemma overrideActive_spec (user : User) (now : Z) :
  overrideActive user now = true <-> override_active_spec user now.
Proof.
  unfold overrideActive, override_active_spec.
  destruct (override_limit_requests user) as [l|],
           (override_limit_window_seconds user) as [w|],
           (override_limit_expiry user) as [[ms| |ms]|];
    (split;
     [ try discriminate; intros H; repeat split; try discriminate;
       exists ms; (split; [reflexivity | apply Z.ltb_lt in H; lia])
     | intros (Hl & Hw & e & He & Hgt); try congruence;
       injection He as <-; apply Z.ltb_lt; lia ]).
Qed.

Lemma with_new_Date_dated (user : User) :
  dated_expiry user -> with_new_Date user = user.
Proof.
  intros Hdated. destruct user as [i t l w [[ms| |ms]|]]; try reflexivity.
  now destruct (Hdated ms).
Qed.

Lemma with_new_Date_never_throws (config : RateLimitConfig) (user : User) (now : Z)
    (defect : Defect) :
  effectiveLimit config (with_new_Date user) now <> inl (Thrown defect).
Proof.
  unfold effectiveLimit, tierBranch, tierLimit, with_new_Date.
  cbn [override_limit_requests override_limit_window_seconds override_limit_expiry tier].
  destruct (override_limit_requests user) as [l|],
           (override_limit_window_seconds user) as [w|],
           (override_limit_expiry user) as [[ms| |ms]|];
    cbn [fmap option_fmap option_map new_Date getTime];
    try destruct (now <? ms);
    try destruct (config !! tier user) as [tc|];
    try destruct (inherited (tier user));
    discriminate.
Qed.

Lemma statsLimit_as_effectiveLimit (config : RateLimitConfig) (user : User) (now : Z) :
  statsLimit config user now
  = match effectiveLimit config (with_new_Date user) now with
    | inr (limit, ws) =>
        if ws <=? 0
        then inl (TagRateLimitConfigErrorCause ("Invalid windowSeconds: " +:+ toString ws))
        else inr (Some limit, Some ws, overrideActive (with_new_Date user) now)
    | inl (Missing e) => inl (TagRateLimitConfigError e)
    | inl _ => inr (None, None, false)
    end.
Proof.
  unfold statsLimit, effectiveLimit, tierBranch, tierLimit, overrideActive, with_new_Date.
  cbn [override_limit_requests override_limit_window_seconds override_limit_expiry tier].
  destruct (override_limit_requests user) as [l|],
           (override_limit_window_seconds user) as [w|],
           (override_limit_expiry user) as [[ms| |ms]|];
    cbn [fmap option_fmap option_map new_Date getTime];
    try destruct (now <? ms);
    try destruct (config !! tier user) as [tc|];
    try destruct (inherited (tier user));
    try reflexivity;
    match goal with |- context [?x <=? 0] => destruct (x <=? 0) end; reflexivity.
Qed.

(** X10. The stats handler resolves the limit as the engine does for the
    user whose expiry has gone through [new Date]: the same pair at the
    same clock reading, the same error for a tier that is not found, and a
    flag [overrideActive] that is true exactly when that override is
    active. The two differ in three places: the stats handler builds the
    error of a non-positive window with the field [cause] where the class
    has [reason]; for a tier that names a member inherited from
    [Object.prototype] it goes on with an undefined limit and window where
    the engine dies; and for an expiry that is a text, which is what a
    database returns, it resolves the override where the engine dies. *)
Theorem stats_resolution_matches_check (config : RateLimitConfig) (user : User) (now : Z) :
  statsLimit config user now
  = match effectiveLimit config (with_new_Date user) now with
    | inr (limit, ws) =>
        if ws <=? 0
        then inl (TagRateLimitConfigErrorCause ("Invalid windowSeconds: " +:+ toString ws))
        else inr (Some limit, Some ws, overrideActive (with_new_Date user) now)
    | inl (Missing e) => inl (TagRateLimitConfigError e)
    | inl _ => inr (None, None, false)
    end /\
  (forall defect, effectiveLimit config (with_new_Date user) now <> inl (Thrown defect)) /\
  (overrideActive (with_new_Date user) now = true
   <-> override_active_spec (with_new_Date user) now) /\
  (dated_expiry user -> with_new_Date user = user) /\
  (forall ms, override_limit_expiry user = Some (DateText ms) ->
     effectiveLimit config user now = inl (Thrown getTime_is_not_a_function)).
Proof.
  split; [apply statsLimit_as_effectiveLimit|].
  split; [intros defect; apply with_new_Date_never_throws|].
  split; [apply overrideActive_spec|].
  split; [apply with_new_Date_dated|].
  intros ms. apply effectiveLimit_DateText.
Qed.

Lemma stats_resolution_matches_check_witness :
  (* the row of [u2] as the database returns it, at 1 s *)
  statsLimit rateLimitConfigData (MemSupabase.returned "u2" row_u2) 1000
  = inr (Some 2, Some 30, true) /\
  effectiveLimit rateLimitConfigData (MemSupabase.returned "u2" row_u2) 1000
  = inl (Thrown getTime_is_not_a_function) /\
  (* a tier that names an inherited member *)
  statsLimit rateLimitConfigData u_constructor 0 = inr (None, None, false) /\
  (* a user as the type has it *)
  with_new_Date u3 = u3.
Proof.
  pose proof (stats_resolution_matches_check rateLimitConfigData
                (MemSupabase.returned "u2" row_u2) 1000) as (Hstats & _ & _ & _ & Hdies).
  pose proof (stats_resolution_matches_check rateLimitConfigData u_constructor 0)
    as (Hinherited & _).
  pose proof (stats_resolution_matches_check rateLimitConfigData u3 0)
    as (_ & _ & _ & Hdated & _).
  split; [rewrite Hstats; reflexivity|].
  split; [exact (Hdies 300000 eq_refl)|].
  split; [rewrite Hinherited; reflexivity|].
  apply Hdated. intros ms. discriminate.
Defined.

(** [parseInt] reads back what [toString] writes. *)
Lemma digits_prefix_string_of_uint (d d' : Decimal.uint) :
  digits_prefix (NilEmpty.string_of_uint d)
    (Some (Z.of_N (DecimalPos.Unsigned.of_lu d')))
  = Some (Z.of_N (DecimalPos.Unsigned.of_lu (Decimal.revapp d d'))).
Proof.
  revert d'. induction d as [|d IH|d IH|d IH|d IH|d IH|d IH|d IH|d IH|d IH|d IH];
    intros d'; [reflexivity|..];
    cbn [NilEmpty.string_of_uint digits_prefix Decimal.revapp];
    match goal with
    | |- context [digit_of ?a] =>
        let v := eval vm_compute in (digit_of a) in
        change (digit_of a) with v
    end;
    cbn [default]; unfold Datatypes.id;
    match goal with
    | |- digits_prefix _ (Some ?acc) = Some (Z.of_N (DecimalPos.Unsigned.of_lu (Decimal.revapp _ ?d2))) =>
        replace acc with (Z.of_N (DecimalPos.Unsigned.of_lu d2))
          by (cbn [DecimalPos.Unsigned.of_lu]; lia)
    end;
    apply IH.
Qed.

Lemma digits_prefix_start (d : Decimal.uint) :
  d <> Decimal.Nil ->
  parseInt (NilEmpty.string_of_uint d) = Some (Z.of_uint d).
Proof.
  intros Hd.
  assert (Hstart : parseInt (NilEmpty.string_of_uint d)
                   = digits_prefix (NilEmpty.string_of_uint d) (Some 0)).
  { destruct d; [congruence|..]; reflexivity. }
  rewrite Hstart.
  rewrite (digits_prefix_string_of_uint d Decimal.Nil
           : digits_prefix (NilEmpty.string_of_uint d) (Some 0) = _).
  unfold Z.of_uint. rewrite DecimalPos.Unsigned.of_uint_alt. reflexivity.
Qed.

Lemma parseInt_negative (d : Decimal.uint) :
  d <> Decimal.Nil ->
  parseInt (String "-" (NilEmpty.string_of_uint d)) = Some (- Z.of_uint d).
Proof.
  intros Hd.
  assert (Hstart : parseInt (String "-" (NilEmpty.string_of_uint d))
                   = option_map Z.opp (digits_prefix (NilEmpty.string_of_uint d) (Some 0))).
  { destruct d; [congruence|..]; reflexivity. }
  rewrite Hstart.
  rewrite (digits_prefix_string_of_uint d Decimal.Nil
           : digits_prefix (NilEmpty.string_of_uint d) (Some 0) = _).
  unfold Z.of_uint. rewrite DecimalPos.Unsigned.of_uint_alt. reflexivity.
Qed.

Lemma parseInt_toString (n : Z) : parseInt (toString n) = Some n.
Proof.
  pose proof (DecimalZ.of_to n) as Hn.
  unfold toString. destruct n as [|p|p]; [reflexivity|..];
    cbn [Z.to_int NilZero.string_of_int] in *;
    pose proof (DecimalPos.Unsigned.to_uint_nonnil p) as Hnil;
    unfold NilZero.string_of_uint;
    destruct (Pos.to_uint p) eqn:E; try congruence;
    rewrite <- E in *; cbn [Z.of_int] in Hn.
  all: try (rewrite digits_prefix_start by exact Hnil; now rewrite Hn).
  all: rewrite parseInt_negative by exact Hnil; now rewrite Hn.
Qed.

(** The stats handler on the in-memory stores, for a stored user whose
    limit resolves. *)
Lemma stats_in_memory (config : RateLimitConfig) (now : Z) (userId : string)
    (tbl : MemSupabase.Table) (st : MemRedis.Store) (row : MemSupabase.Row)
    (limit ws : option Z) (active : bool) :
  tbl !! userId = Some row ->
  statsLimit config (MemSupabase.returned userId row) now = inr (limit, ws, active) ->
  testCombinedLogicHandler MemSupabase.service MemRedis.service config now userId (tbl, st)
  = (inr {| stats_userId := userId;
            stats_tier := MemSupabase.row_tier row;
            stats_limit := limit;
            stats_windowSeconds := ws;
            stats_currentCount :=
              MemRedis.counter
                ("rate_limit:" +:+ userId +:+ ":" +:+ windowStartText ws now) st;
            stats_secondsUntilReset :=
              MemRedis.TTL
                ("rate_limit:" +:+ userId +:+ ":" +:+ windowStartText ws now) st;
            stats_overrideActive := active |}, (tbl, st)).
Proof.
  intros Hrow Hlimit.
  unfold testCombinedLogicHandler. rewrite catchAll_catchTags_dies.
  unfold testCombinedLogicHandler_body,
    fetchUser, bind, mapError, onSupabase, onRedis, succeed, failWith.
  cbn [MemSupabase.service s_select fst snd]. rewrite Hrow.
  cbn [fmap option_fmap option_map error data]. rewrite Hlimit.
  cbn [MemRedis.service r_get r_ttl fst snd].
  unfold MemRedis.GET, MemRedis.counter.
  destruct (st !! _) as [e|]; [rewrite parseInt_toString|]; reflexivity.
Qed.

(** X11. The stats handler only reads the counters. It does not run the
    script: on two Redis services that answer [GET] and [TTL] alike it
    behaves alike, whatever their [EVAL] does. And on the in-memory stores
    it leaves the table and the counters as they were, whatever it
    answers. *)
Theorem stats_only_reads {D S} (supabase : SupabaseClientService D)
    (redis redis' : RedisService S) (config : RateLimitConfig) (now : Z)
    (userId : string) :
  (forall key st, r_get redis key st = r_get redis' key st) ->
  (forall key st, r_ttl redis key st = r_ttl redis' key st) ->
  (forall st,
     testCombinedLogicHandler supabase redis config now userId st
     = testCombinedLogicHandler supabase redis' config now userId st) /\
  (forall (tbl : MemSupabase.Table) (store : MemRedis.Store),
     (testCombinedLogicHandler MemSupabase.service MemRedis.service config now userId
        (tbl, store)).2 = (tbl, store)).
Proof.
  intros Hget Httl. split.
  - intros st.
    unfold testCombinedLogicHandler. rewrite !catchAll_catchTags_dies.
    unfold testCombinedLogicHandler_body, bind, mapError, onRedis.
    destruct (fetchUser supabase userId st) as [[e|userData] st1]; [reflexivity|].
    destruct (statsLimit config userData now) as [e|[[l w] a]]; [reflexivity|].
    cbn [fst snd]. rewrite Hget.
    destruct (r_get redis' _ st1.2) as [[e|countOption] s1]; [reflexivity|].
    cbn [fst snd]. rewrite Httl. reflexivity.
  - intros tbl store.
    unfold testCombinedLogicHandler. rewrite catchAll_catchTags_dies.
    unfold testCombinedLogicHandler_body,
      fetchUser, bind, mapError, onSupabase, onRedis, succeed, failWith.
    cbn [MemSupabase.service s_select fst snd].
    destruct (tbl !! userId) as [row|]; cbn [fmap option_fmap option_map error data];
      [|reflexivity].
    destruct (statsLimit config (MemSupabase.returned userId row) now) as [e|[[l w] a]];
      reflexivity.
Qed.

Lemma stats_only_reads_witness :
  (testCombinedLogicHandler MemSupabase.service redis_without_script rateLimitConfigData
     0 "u1" (users_u1, store_after_ten)).1
  = inr {| stats_userId := "u1"; stats_tier := "free"; stats_limit := Some 10;
           stats_windowSeconds := Some 60; stats_currentCount := 10;
           stats_secondsUntilReset := 60; stats_overrideActive := false |}.
Proof.
  rewrite <- (proj1 (stats_only_reads MemSupabase.service MemRedis.service
                       redis_without_script rateLimitConfigData 0 "u1"
                       (fun _ _ => eq_refl) (fun _ _ => eq_refl))).
  vm_compute. reflexivity.
Defined.

(** The entry of a bucket after a run of calls that started without the
    key, or with a key set by the script. *)
Lemma checkRateLimit_seq_entry (config : RateLimitConfig) (user : User)
    (limit ws : Z) (key : string) (clock : list Z) :
  0 < ws ->
  Forall (fun now => effectiveLimit config user now = inr (limit, ws) /\
                     redisKey user ws now = key) clock ->
  forall st : MemRedis.Store,
    (st !! key = None \/
     exists c, 1 <= c /\
               st !! key = Some {| MemRedis.value := c; MemRedis.seconds_left := ws |}) ->
    clock <> [] ->
    (checkRateLimit_seq config MemRedis.service user clock st).2 !! key
    = Some {| MemRedis.value := MemRedis.counter key st + Z.of_nat (length clock);
              MemRedis.seconds_left := ws |}.
Proof.
  intros Hws Hall.
  induction Hall as [|now later [Heff Hkey] Hlater IH]; intros st Hst Hne; [congruence|].
  assert (Hfirst :
    (checkRateLimit config MemRedis.service now user st).2 !! key
    = Some {| MemRedis.value := MemRedis.counter key st + 1;
              MemRedis.seconds_left := ws |}).
  { rewrite (checkRateLimit_proceeds config MemRedis.service now user limit ws Heff Hws).
    rewrite MemRedis_decide_state, Hkey. unfold MemRedis.counter.
    destruct Hst as [Hnone|(c & Hc & Hsome)].
    - rewrite Hnone. now apply incrWithExpire_fresh.
    - rewrite Hsome. rewrite (incrWithExpire_again key ws st _ Hsome); [reflexivity|].
      cbn. lia. }
  cbn [checkRateLimit_seq].
  destruct (checkRateLimit config MemRedis.service now user st) as [r st1].
  cbn [snd] in Hfirst.
  destruct later as [|now2 later].
  - cbn. rewrite Hfirst. reflexivity.
  - specialize (IH st1).
    destruct (checkRateLimit_seq config MemRedis.service user (now2 :: later) st1)
      as [rs st2].
    cbn [snd] in *. rewrite IH.
    + unfold MemRedis.counter at 1. rewrite Hfirst. cbn [MemRedis.value].
      rewrite !length_cons. f_equal. f_equal. lia.
    + right. exists (MemRedis.counter key st + 1). split; [|exact Hfirst].
      unfold MemRedis.counter. destruct Hst as [->|(c & Hc & ->)]; cbn; lia.
    + discriminate.
Qed.

(** X12. What the stats handler shows after [N] calls of a bucket that
    started without its key, for a user that the table holds and that the
    engine got as the query returns it, at a clock reading of the same
    bucket: the limit and the window that the calls were held to,
    [currentCount = N] (the text of the counter read back as a number) and
    [overrideActive = false] (a row that the engine takes has no expiry).
    [secondsUntilReset] is what [TTL] answers at that reading. *)
Theorem stats_after_checks (config : RateLimitConfig) (user : User)
    (limit ws : Z) (key : string) (clock : list Z) (now : Z)
    (tbl : MemSupabase.Table) (row : MemSupabase.Row) (st : MemRedis.Store) :
  0 < ws ->
  Forall (fun t => effectiveLimit config user t = inr (limit, ws) /\
                   redisKey user ws t = key) clock ->
  effectiveLimit config user now = inr (limit, ws) ->
  redisKey user ws now = key ->
  st !! key = None ->
  tbl !! id user = Some row ->
  MemSupabase.returned (id user) row = user ->
  exists secondsUntilReset,
    (testCombinedLogicHandler MemSupabase.service MemRedis.service config now (id user)
       (tbl, (checkRateLimit_seq config MemRedis.service user clock st).2)).1
    = inr {| stats_userId := id user;
             stats_tier := tier user;
             stats_limit := Some limit;
             stats_windowSeconds := Some ws;
             stats_currentCount := Z.of_nat (length clock);
             stats_secondsUntilReset := secondsUntilReset;
             stats_overrideActive := false |}.
Proof.
  intros Hws Hall Heff Hkey Hfresh Hrow Huser.
  assert (Hnone : override_limit_expiry user = None).
  { destruct (override_limit_expiry user) as [[ms| |ms]|] eqn:Ee; [| |exfalso|reflexivity].
    - rewrite <- Huser in Ee. cbn in Ee.
      destruct (MemSupabase.row_override_limit_expiry row); discriminate.
    - rewrite <- Huser in Ee. cbn in Ee.
      destruct (MemSupabase.row_override_limit_expiry row); discriminate.
    - rewrite (effectiveLimit_DateText config user now ms Ee) in Heff. discriminate. }
  assert (Hdated : dated_expiry user) by (intros ms; rewrite Hnone; discriminate).
  assert (Hlimit : statsLimit config (MemSupabase.returned (id user) row) now
                   = inr (Some limit, Some ws, false)).
  { rewrite Huser, statsLimit_as_effectiveLimit, (with_new_Date_dated user Hdated), Heff.
    destruct (Z.leb_spec ws 0); [lia|].
    unfold overrideActive. rewrite Hnone.
    destruct (override_limit_requests user), (override_limit_window_seconds user);
      reflexivity. }
  rewrite (stats_in_memory config now (id user) tbl _ row _ _ _ Hrow Hlimit).
  cbn [fst windowStartText].
  change ("rate_limit:" +:+ id user +:+ ":" +:+ toString (windowStartSeconds ws now))%string
    with (redisKey user ws now).
  rewrite Hkey. eexists. f_equal. f_equal.
  - rewrite <- Huser. reflexivity.
  - unfold MemRedis.counter.
    destruct (decide (clock = [])) as [->|Hne].
    + cbn. rewrite Hfresh. reflexivity.
    + rewrite (checkRateLimit_seq_entry config user limit ws key clock Hws Hall st
                 (or_introl Hfresh) Hne).
      unfold MemRedis.counter. rewrite Hfresh. reflexivity.
Qed.

Lemma stats_after_checks_witness :
  Forall (fun t => effectiveLimit rateLimitConfigData u1 t = inr (10, 60) /\
                   redisKey u1 60 t = "rate_limit:u1:0"%string) [0; 1000; 59999] /\
  exists secondsUntilReset,
    (testCombinedLogicHandler MemSupabase.service MemRedis.service rateLimitConfigData
       30000 "u1"
       (users_u1,
        (checkRateLimit_seq rateLimitConfigData MemRedis.service u1 [0; 1000; 59999] ∅).2)).1
    = inr {| stats_userId := "u1"; stats_tier := "free"; stats_limit := Some 10;
             stats_windowSeconds := Some 60; stats_currentCount := 3;
             stats_secondsUntilReset := secondsUntilReset;
             stats_overrideActive := false |}.
Proof.
  assert (H : Forall (fun t => effectiveLimit rateLimitConfigData u1 t = inr (10, 60) /\
                               redisKey u1 60 t = "rate_limit:u1:0"%string)
                     [0; 1000; 59999]) by (repeat constructor).
  split; [exact H|].
  exact (stats_after_checks rateLimitConfigData u1 10 60 "rate_limit:u1:0"
           [0; 1000; 59999] 30000 users_u1 row_u1 ∅
           ltac:(lia) H eq_refl eq_refl eq_refl eq_refl eq_refl).
Defined.

(** ** The user service *)

(** X15. The query that the two handlers make in line is the query of the
    user service: for every client and every state, [fetchUser] is
    [getUserDataImpl] with the state of Redis left alone. *)
Theorem fetchUser_is_getUserData {D S} (supabase : SupabaseClientService D)
    (userId : string) (d : D) (s : S) :
  fetchUser supabase userId (d, s)
  = ((getUserDataImpl supabase userId d).1, ((getUserDataImpl supabase userId d).2, s)).
Proof.
  unfold fetchUser, getUserDataImpl, bind, mapError, onSupabase, succeed, failWith.
  cbn [fst snd].
  destruct (s_select supabase userId d) as [[e|result] d1]; [reflexivity|].
  destruct (error result); [reflexivity|].
  destruct (data result); reflexivity.
Qed.

(** ** The check handler *)

(** X17. Unless the user query resolves without an error and with a row,
    [checkRateLimitHandler] fails and has not talked to Redis: no counter
    is created or incremented for a user that was not found. *)
Theorem check_without_user_leaves_redis_alone {D S} (supabase : SupabaseClientService D)
    (redis : RedisService S) (config : RateLimitConfig) (now : Z) (userId : string)
    (d d1 : D) (s : S) (answer : string + PostgrestResponse User) :
  s_select supabase userId d = (answer, d1) ->
  match answer with
  | inl _ => True
  | inr result => error result <> None \/ data result = None
  end ->
  exists response,
    checkRateLimitHandler supabase redis config now userId (d, s)
    = (inl response, (d1, s)).
Proof.
  intros Hsel Hbad.
  unfold checkRateLimitHandler, catchTags, catchAll, checkRateLimitHandler_body,
    fetchUser, bind, mapError, onSupabase, failWith.
  cbn [fst snd]. rewrite Hsel.
  destruct answer as [e|result]; [eauto|].
  destruct (error result) as [e|]; [eauto|].
  destruct (data result) as [u|]; [|eauto].
  destruct Hbad; congruence.
Qed.

Lemma check_without_user_leaves_redis_alone_witness :
  (checkRateLimitHandler MemSupabase.service MemRedis.service rateLimitConfigData
     0 "u9" (users_u1, store_after_ten)).2 = (users_u1, store_after_ten).
Proof.
  destruct (check_without_user_leaves_redis_alone MemSupabase.service MemRedis.service
              rateLimitConfigData 0 "u9" users_u1 users_u1 store_after_ten
              (inr {| data := None; error := None |}) eq_refl (or_intror eq_refl))
    as (response & Hrun).
  now rewrite Hrun.
Defined.

(** ** Concurrent calls *)

Lemma run_schedule_rtc {S} (config : RateLimitConfig) (redis : RedisService S)
    (user : User) (schedule : list nat) (pool : list Caller) (st : S) :
  rtc (pool_step config redis user) (pool, st)
      (run_schedule config redis user schedule pool st).
Proof.
  revert pool st. induction schedule as [|i rest IH]; intros pool st; [apply rtc_refl|].
  cbn [run_schedule]. destruct (pool !! i) as [c|] eqn:Hc; [|apply IH].
  destruct (caller_step config redis user c st) as [c' st'] eqn:Hstep.
  eapply rtc_l; [|apply IH].
  rewrite insert_take_drop by (eapply lookup_lt_Some; exact Hc).
  rewrite <- (take_drop_middle pool i c Hc) at 1.
  now constructor.
Qed.

(** X18. The bound on the allowed calls holds for concurrent callers. The
    calls of one bucket are suspended at the script and at the TTL read,
    and in whatever order they are resumed, from a store that has no key
    for the bucket, at most [limit] of them end as [Allowed]. *)
Theorem allowed_under_any_schedule (config : RateLimitConfig) (user : User)
    (limit ws : Z) (key : string) (schedule : list nat) (clock : list Z)
    (st : MemRedis.Store) :
  0 <= limit ->
  0 < ws ->
  Forall (fun now => effectiveLimit config user now = inr (limit, ws) /\
                     redisKey user ws now = key) clock ->
  st !! key = None ->
  allowed_callers
    (run_schedule config MemRedis.service user schedule (Start <$> clock) st).1
  <= limit.
Proof.
  intros Hlimit Hws Hall Hfresh.
  destruct (run_schedule config MemRedis.service user schedule (Start <$> clock) st)
    as [pool' st'] eqn:Hrun.
  apply (allowed_under_interleaving config user limit ws key Hlimit Hws
           (Start <$> clock) pool' st st').
  - apply Forall_fmap. exact Hall.
  - clear. induction clock as [|now clock IH]; [reflexivity|].
    rewrite fmap_cons, allowed_callers_cons. exact IH.
  - exact Hfresh.
  - rewrite <- Hrun. apply run_schedule_rtc.
Qed.

Lemma allowed_under_any_schedule_witness :
  (run_schedule rateLimitConfigData MemRedis.service u2 [2; 0; 1; 0; 2; 1]%nat
     (Start <$> [0; 500; 1000]) ∅).1
  = [Done (inr Allowed); Done (inr (RateLimited 30)); Done (inr Allowed)] /\
  allowed_callers
    (run_schedule rateLimitConfigData MemRedis.service u2 [2; 0; 1; 0; 2; 1]%nat
       (Start <$> [0; 500; 1000]) ∅).1 <= 2.
Proof.
  split; [vm_compute; reflexivity|].
  apply (allowed_under_any_schedule rateLimitConfigData u2 2 30 "rate_limit:u2:0"
           [2; 0; 1; 0; 2; 1]%nat [0; 500; 1000] ∅);
    [lia | lia | repeat constructor | reflexivity].
Defined.

(** ** The configuration *)

(** X19. A Redis configuration that loads has a port between 1 and 65535;
    the host is the one of the environment, or 127.0.0.1 when none is set;
    the port is 6379 when none is set; the password and the database are
    optional. *)
Theorem RedisConfigSchema_loaded (parseInteger : string -> option Z)
    (env : gmap string string) (cfg : EnvConfig.RedisConfig) :
  EnvConfig.RedisConfigSchema parseInteger env = inr cfg ->
  0 < EnvConfig.port cfg < 65536 /\
  EnvConfig.host cfg = default "127.0.0.1"%string (env !! "REDIS_HOST"%string) /\
  (env !! "REDIS_PORT"%string = None -> EnvConfig.port cfg = 6379) /\
  EnvConfig.password cfg = env !! "REDIS_PASSWORD"%string /\
  (env !! "REDIS_DB"%string = None -> EnvConfig.db cfg = None).
Proof.
  unfold EnvConfig.RedisConfigSchema, EnvConfig.validate, EnvConfig.withDefault,
    EnvConfig.option_, EnvConfig.string_, EnvConfig.integer.
  destruct (env !! "REDIS_HOST"%string) as [h|];
    destruct (env !! "REDIS_PORT"%string) as [p|];
    try destruct (parseInteger p) as [n|];
    destruct (env !! "REDIS_PASSWORD"%string) as [pw|];
    destruct (env !! "REDIS_DB"%string) as [dbt|];
    try destruct (parseInteger dbt) as [m|];
    cbn;
    try match goal with
        | |- context [(0 <? ?n) && (?n <? 65536)] =>
            destruct (Z.ltb_spec 0 n); destruct (Z.ltb_spec n 65536); cbn
        end;
    intros Hload; try discriminate Hload; injection Hload as <-; cbn;
    repeat split; try lia; try reflexivity; try discriminate.
Qed.

Lemma RedisConfigSchema_loaded_witness :
  EnvConfig.RedisConfigSchema tonumber env_port
    = inr {| EnvConfig.host := "127.0.0.1"; EnvConfig.port := 6380;
             EnvConfig.password := None; EnvConfig.db := None |} /\
  0 < 6380 < 65536.
Proof.
  assert (H : EnvConfig.RedisConfigSchema tonumber env_port
              = inr {| EnvConfig.host := "127.0.0.1"; EnvConfig.port := 6380;
                       EnvConfig.password := None; EnvConfig.db := None |})
    by (vm_compute; reflexivity).
  split; [exact H|].
  apply (RedisConfigSchema_loaded tonumber env_port _ H).
Defined.

(** X20. The default of the port stands in for a missing variable only: a
    [REDIS_PORT] that is set to a text that is no integer, or to a number
    out of range, makes the configuration fail. *)
Theorem RedisConfigSchema_bad_port (parseInteger : string -> option Z)
    (env : gmap string string) (text : string) :
  env !! "REDIS_PORT"%string = Some text ->
  match parseInteger text with
  | Some n => n <= 0 \/ 65536 <= n
  | None => True
  end ->
  exists e, EnvConfig.RedisConfigSchema parseInteger env = inl e.
Proof.
  intros Hport Hbad.
  unfold EnvConfig.RedisConfigSchema, EnvConfig.validate, EnvConfig.withDefault,
    EnvConfig.option_, EnvConfig.string_, EnvConfig.integer.
  rewrite Hport.
  destruct (parseInteger text) as [n|].
  - assert (Hrange : (0 <? n) && (n <? 65536) = false).
    { destruct (Z.ltb_spec 0 n); destruct (Z.ltb_spec n 65536); cbn; lia. }
    rewrite Hrange.
    destruct (env !! "REDIS_HOST"%string); eauto.
  - destruct (env !! "REDIS_HOST"%string); eauto.
Qed.

Lemma RedisConfigSchema_bad_port_witness :
  env_bad_port !! "REDIS_PORT"%string = Some "70000"%string /\
  exists e, EnvConfig.RedisConfigSchema tonumber env_bad_port = inl e.
Proof.
  split; [reflexivity|].
  apply (RedisConfigSchema_bad_port tonumber env_bad_port "70000" eq_refl).
  right. vm_compute. discriminate.
Defined.

(** X21. The Supabase configuration has no defaults: it loads exactly when
    [SUPABASE_URL] and [SUPABASE_SERVICE_KEY] are both set, with their
    values. *)
Theorem SupabaseConfig_loads_iff (env : gmap string string)
    (cfg : EnvConfig.SupabaseSettings) :
  EnvConfig.SupabaseConfig env = inr cfg
  <-> env !! "SUPABASE_URL"%string = Some (EnvConfig.url cfg) /\
      env !! "SUPABASE_SERVICE_KEY"%string = Some (EnvConfig.serviceKey cfg).
Proof.
  unfold EnvConfig.SupabaseConfig, EnvConfig.string_.
  destruct cfg as [u k]. cbn.
  destruct (env !! "SUPABASE_URL"%string) as [u'|],
           (env !! "SUPABASE_SERVICE_KEY"%string) as [k'|];
    split; try discriminate; try (intros [H1 H2]; discriminate).
  - intros [= <- <-]. auto.
  - intros [[= <-] [= <-]]. reflexivity.
Qed.

(** X22. What [checkRateLimitHandler] gives back for a user that the
    query finds: the object [{statusCode: 200, status: "ALLOWED"}] without
    [RetryAfter] when the engine allows, and the object [{statusCode: 429,
    status: "NOT ALLOWED", RetryAfter}] with the delay in decimal when it
    refuses. When the engine fails with a Redis or a configuration error,
    the entry of the table throws and the handler dies; when the engine
    dies, the handler dies of the same defect. The state of Redis is the
    one that the engine leaves. In particular, for every row whose
    [override_limit_expiry] is a text, which is what a database returns
    for a column that is not null, the handler dies at [getTime()] and
    Redis is left alone. *)
Theorem checkRateLimitHandler_outcome {D S} (supabase : SupabaseClientService D)
    (redis : RedisService S) (config : RateLimitConfig) (now : Z) (userId : string)
    (user : User) (d d1 : D) (s : S) :
  s_select supabase userId d = (inr {| data := Some user; error := None |}, d1) ->
  checkRateLimitHandler supabase redis config now userId (d, s)
  = (match (checkRateLimit config redis now user s).1 with
     | inr Allowed =>
         inr {| statusCode := 200; status := "ALLOWED"; RetryAfter := None |}
     | inr (RateLimited n) =>
         inr {| statusCode := 429; status := "NOT ALLOWED";
                RetryAfter := Some (toString n) |}
     | inl (EDie defect) => inl (Die defect)
     | inl (ERedis _) | inl (EConfig _) => inl (Die pipe_argument_is_not_a_function)
     end, (d1, (checkRateLimit config redis now user s).2)) /\
  (forall ms, override_limit_expiry user = Some (DateText ms) ->
     checkRateLimitHandler supabase redis config now userId (d, s)
     = (inl (Die getTime_is_not_a_function), (d1, s))).
Proof.
  intros Hsel.
  assert (Hrun :
    checkRateLimitHandler supabase redis config now userId (d, s)
    = (match (checkRateLimit config redis now user s).1 with
       | inr Allowed =>
           inr {| statusCode := 200; status := "ALLOWED"; RetryAfter := None |}
       | inr (RateLimited n) =>
           inr {| statusCode := 429; status := "NOT ALLOWED";
                  RetryAfter := Some (toString n) |}
       | inl (EDie defect) => inl (Die defect)
       | inl (ERedis _) | inl (EConfig _) => inl (Die pipe_argument_is_not_a_function)
       end, (d1, (checkRateLimit config redis now user s).2))).
  { unfold checkRateLimitHandler. rewrite catchAll_catchTags_dies.
    unfold checkRateLimitHandler_body,
      fetchUser, bind, mapError, onSupabase, onRedis, succeed, failWith.
    cbn [fst snd]. rewrite Hsel. cbn [error data fst snd].
    destruct (checkRateLimit config redis now user s) as [[[e|e|defect]|[|n]] s1];
      reflexivity. }
  split; [exact Hrun|].
  intros ms He. rewrite Hrun. unfold checkRateLimit.
  rewrite (effectiveLimit_DateText config user now ms He). reflexivity.
Qed.

Lemma checkRateLimitHandler_outcome_witness :
  checkRateLimitHandler MemSupabase.service redis_down rateLimitConfigData 0 "u1"
    (users_u1_u2, tt)
  = (inl (Die pipe_argument_is_not_a_function), (users_u1_u2, tt)) /\
  (checkRateLimitHandler MemSupabase.service MemRedis.service rateLimitConfigData 0 "u1"
     (users_u1_u2, ∅)).1
  = inr {| statusCode := 200; status := "ALLOWED"; RetryAfter := None |} /\
  checkRateLimitHandler MemSupabase.service MemRedis.service rateLimitConfigData 1000 "u2"
    (users_u1_u2, ∅)
  = (inl (Die getTime_is_not_a_function), (users_u1_u2, ∅)).
Proof.
  split; [|split].
  - rewrite (proj1 (checkRateLimitHandler_outcome MemSupabase.service redis_down
                      rateLimitConfigData 0 "u1" u1 users_u1_u2 users_u1_u2 tt eq_refl)).
    reflexivity.
  - rewrite (proj1 (checkRateLimitHandler_outcome MemSupabase.service MemRedis.service
                      rateLimitConfigData 0 "u1" u1 users_u1_u2 users_u1_u2 ∅ eq_refl)).
    reflexivity.
  - exact (proj2 (checkRateLimitHandler_outcome MemSupabase.service MemRedis.service
                    rateLimitConfigData 1000 "u2" (MemSupabase.returned "u2" row_u2)
                    users_u1_u2 users_u1_u2 ∅ eq_refl) 300000 eq_refl).
Defined.
